(** * Classifiers of the chemistry notebooks

    A shallow embedding of the helper functions defined in the notebooks
    (bond polarity from electronegativity differences, VSEPR geometry from
    steric number and lone pairs, the hybridisation exercise, and the
    conformer RMSD matrix), together with the properties they satisfy.

    Python values are modelled as follows: [int] as [Z], [float] as the
    binary64 primitive floats, [str] as [string] (the bytes of the UTF-8
    encoding), [dict] as [gmap], a numpy 2-D array as a list of rows.
    Exceptions and the module-level dictionaries are threaded through a
    small state-and-exception monad. *)

From Stdlib Require Import ZArith Floats Lia.
From stdpp Require Import gmap strings list.

Set Warnings "-inexact-float".
Set Default Proof Using "Type".

(** ** A fragment of the Python runtime *)

Module Py.

(** The exceptions that the modelled cells can raise. *)
Inductive exn : Type :=
| KeyError (key : string)
| ValueError (msg : string)
| OverflowError (msg : string)
| IndexError
| NotImplementedError.

(** A computation over a store [St]: it ends normally with a value or
    abruptly with an exception, and hands back the store. *)
Definition M (St A : Type) : Type := St → (exn + A) * St.

Definition ret {St A} (a : A) : M St A := λ s, (inr a, s).

Definition bind {St A B} (m : M St A) (k : A → M St B) : M St B :=
  λ s, match m s with
       | (inr a, s') => k a s'
       | (inl e, s') => (inl e, s')
       end.

Definition raise {St A} (e : exn) : M St A := λ s, (inl e, s).

(** [try: m except ...]: [handler e] is [Some k] when an [except] clause
    matches [e]. *)
Definition try_except {St A} (m : M St A) (handler : exn → option (M St A))
  : M St A :=
  λ s, match m s with
       | (inr a, s') => (inr a, s')
       | (inl e, s') =>
           match handler e with
           | Some k => k s'
           | None => (inl e, s')
           end
       end.

(** Reading a module-level name. *)
Definition read {St A} (proj : St → A) : M St A := λ s, (inr (proj s), s).

(** Lifting a fallible operation that does not touch the store. *)
Definition lift {St A} (r : exn + A) : M St A := λ s, (r, s).

(** [d[k]] on a dictionary with string keys. *)
Definition subscript {V} (d : gmap string V) (k : string) : exn + V :=
  match d !! k with
  | Some v => inr v
  | None => inl (KeyError k)
  end.

(** [d.get(k, default)]. *)
Definition get `{Countable K} {V} (d : gmap K V) (k : K) (dflt : V) : V :=
  match d !! k with
  | Some v => v
  | None => dflt
  end.

(** [xs[i]] on a list, for an index that is not negative. *)
Definition index {A} (xs : list A) (i : nat) : exn + A :=
  match xs !! i with
  | Some x => inr x
  | None => inl IndexError
  end.

(** [int(x)] on a float: the integral part, the fraction dropped. *)
Definition int (x : float) : exn + Z :=
  match Prim2SF x with
  | S754_zero _ => inr 0%Z
  | S754_infinity _ =>
      inl (OverflowError "cannot convert float infinity to integer")
  | S754_nan => inl (ValueError "cannot convert float NaN to integer")
  | S754_finite s m e =>
      let a := Z.shiftl (Z.pos m) e in
      inr (if s then (- a)%Z else a)
  end.

(** [sum(xs)] over floats, accumulated from the left starting at zero
    (an empty sum is the integer zero, which [int] leaves as it is). *)
Definition sum (xs : list float) : float :=
  fold_left PrimFloat.add xs 0%float.

(** [for x in xs: acc = body(x, acc)], for the names a loop body assigns. *)
Fixpoint for_each {St X A} (xs : list X) (body : X → A → M St A) (acc : A)
  : M St A :=
  match xs with
  | [] => ret acc
  | x :: xs' => bind (body x acc) (for_each xs' body)
  end.

(** [range(lo, hi)]. *)
Definition range (lo hi : nat) : list nat := seq lo (hi - lo).

End Py.

Import Py.

Notation "x <- m ;; k" := (bind m (λ x, k))
  (at level 100, m at next level, right associativity,
   format "'[v' x  <-  m  ;;  '/' k ']'").

(** A call that hands the store back as it found it, and so answers the
    same when it is made again. *)
Definition repeatable {St A} (m : M St A) : Prop :=
  ∀ s, (m s).2 = s ∧ (m (m s).2).1 = (m s).1.

(** ** Bond polarity (ionic versus covalent) *)

Module Bonding.

#[local] Open Scope string_scope.

(** Pauling electronegativity values for common elements. *)
Definition ELECTRONEGATIVITY : gmap string float :=
  list_to_map
    [ ("H", 2.20%float); ("C", 2.55%float); ("N", 3.04%float);
      ("O", 3.44%float); ("F", 3.98%float);
      ("P", 2.19%float); ("S", 2.58%float); ("Cl", 3.16%float);
      ("Br", 2.96%float); ("I", 2.66%float);
      ("Na", 0.93%float); ("K", 0.82%float); ("Mg", 1.31%float);
      ("Ca", 1.00%float);
      ("Al", 1.61%float); ("Si", 1.90%float) ].

(** The module-level names of the notebook: the table is an ordinary
    mutable dictionary, so its current contents are part of the store. *)
Record Globals : Type := { electronegativity : gmap string float }.

Definition initial : Globals := {| electronegativity := ELECTRONEGATIVITY |}.

(** Return |χ1 − χ2| if both symbols found; else None. *)
Definition en_diff (sym1 sym2 : string) : M Globals (option float) :=
  try_except
    (t1 <- read electronegativity ;;
     x1 <- lift (subscript t1 sym1) ;;
     t2 <- read electronegativity ;;
     x2 <- lift (subscript t2 sym2) ;;
     ret (Some (PrimFloat.abs (x1 - x2)%float)))
    (λ e, match e with
          | KeyError _ => Some (ret None)
          | _ => None
          end).

Definition classify_bond (delta : option float) : M Globals string :=
  match delta with
  | None => ret "unknown"
  | Some delta =>
      if PrimFloat.leb 1.7%float delta then ret "ionic"
      else if PrimFloat.leb 0.4%float delta then ret "polar covalent"
      else ret "non‑polar covalent"
  end.

(** The two helpers as every cell composes them
    ([d = en_diff(a, b)] followed by [classify_bond(d)]). *)
Definition classify_bond_polarity (sym1 sym2 : string) : M Globals string :=
  delta <- en_diff sym1 sym2 ;;
  classify_bond delta.

(** The cell of the extension exercise:
    [ELECTRONEGATIVITY.update({...})]. *)
Definition extend_table : M Globals unit :=
  λ g, (inr tt,
        {| electronegativity :=
             <["Te" := 2.10%float]>
               (<["Se" := 2.55%float]>
                  (<["B" := 2.04%float]>
                     (<["Sr" := 0.95%float]>
                        (<["Li" := 0.98%float]> (electronegativity g))))) |}).

End Bonding.

(** ** VSEPR geometry *)

Module VSEPR.

#[local] Open Scope string_scope.
#[local] Open Scope Z_scope.

Definition GEOM_MAP : gmap (Z * Z) string :=
  list_to_map
    [ ((2, 0), "linear");
      ((3, 0), "trigonal planar");
      ((3, 1), "bent (120°)");
      ((4, 0), "tetrahedral");
      ((4, 1), "trigonal pyramidal");
      ((4, 2), "bent (109°)");
      ((5, 0), "trigonal bipyramidal");
      ((5, 1), "seesaw");
      ((5, 2), "T-shaped");
      ((5, 3), "linear");
      ((6, 0), "octahedral");
      ((6, 1), "square pyramidal");
      ((6, 2), "square planar") ].

Record Globals : Type := { geom_map : gmap (Z * Z) string }.

Definition initial : Globals := {| geom_map := GEOM_MAP |}.

(** Return geometry string or 'unknown'. *)
Definition geometry_from_counts (steric lps : Z) : M Globals string :=
  t <- read geom_map ;;
  ret (get t (steric, lps) "unknown").

(** What the helper observes of a bond and of an atom of the toolkit. *)
Record Bond : Type := { GetBondTypeAsDouble : float }.

Record Atom : Type := {
  GetSymbol : string;
  GetFormalCharge : Z;
  GetTotalDegree : Z;
  GetBonds : list Bond
}.

(** Period-wide valence electron counts for main-group elements. *)
Definition VE : gmap string Z :=
  list_to_map
    [ ("H", 1); ("C", 4); ("N", 5); ("O", 6); ("F", 7); ("P", 5);
      ("S", 6); ("Cl", 7); ("Br", 7); ("I", 7); ("Xe", 8) ].

(** [sum(b.GetBondTypeAsDouble() for b in atom.GetBonds())]. *)
Definition bond_order_sum (atom : Atom) : float :=
  sum (GetBondTypeAsDouble <$> GetBonds atom).

(** Return (steric_number, lone_pairs) for atom. *)
Definition steric_and_lps (atom : Atom) : M Globals (Z * Z) :=
  let sym := GetSymbol atom in
  match VE !! sym with
  | None => raise (ValueError ("Valence electrons unknown for " +:+ sym))
  | Some ve =>
      let sigma := GetTotalDegree atom in
      k <- lift (int (bond_order_sum atom)) ;;
      let lps := (ve - GetFormalCharge atom - k) `div` 2 in
      let steric := sigma + lps in
      ret (steric, lps)
  end.

End VSEPR.

(** ** The hybridisation exercise *)

Module Hybridisation.

(** Return a string like 'sp3' based on steric number.  The body of the
    cell is the placeholder of the exercise. *)
Definition predict_hybridisation {St Atom : Type} (atom : Atom)
  : M St string :=
  raise NotImplementedError.

End Hybridisation.

(** ** Conformer diversity *)

Module Conformers.

(** A numpy array of two dimensions, as its list of rows. *)
Abbreviation Matrix := (list (list float)).

(** [np.zeros((n, m))]. *)
Definition zeros (n m : nat) : Matrix := replicate n (replicate m 0%float).

(** [mat[i, j]] for indices that are not negative. *)
Definition item (mat : Matrix) (i j : nat) : option float :=
  match mat !! i with
  | Some row => row !! j
  | None => None
  end.

(** [mat[i, j] = v] for indices that are not negative. *)
Definition setitem (mat : Matrix) (i j : nat) (v : float) : exn + Matrix :=
  match mat !! i with
  | Some row =>
      if decide (j < length row)%nat
      then inr (<[i := <[j := v]> row]> mat)
      else inl IndexError
  | None => inl IndexError
  end.

Section RmsdMatrix.

(** The toolkit is a collaborator: a molecule is a handle into a world of
    conformer coordinates, and the alignment routine answers a number and
    may move the probe conformer. *)
Context {World Mol : Type}.
Variable GetBestRMS : Mol → Mol → Z → Z → World → float * World.

Definition call_GetBestRMS (prb ref : Mol) (prbId refId : Z)
  : M World float :=
  λ w, let (v, w') := GetBestRMS prb ref prbId refId w in (inr v, w').

Definition rmsd_matrix (mol : Mol) (conf_ids : list Z) : M World Matrix :=
  let n := length conf_ids in
  let mat := zeros n n in
  for_each (range 0 n) (λ i mat,
    for_each (range (i + 1) n) (λ j mat,
      prbId <- lift (index conf_ids i) ;;
      refId <- lift (index conf_ids j) ;;
      v <- call_GetBestRMS mol mol prbId refId ;;
      mat <- lift (setitem mat i j v) ;;
      lift (setitem mat j i v)) mat) mat.

End RmsdMatrix.

(** An array of [n] rows of [n] entries. *)
Definition square (n : nat) (mat : Matrix) : Prop :=
  length mat = n ∧ Forall (λ row, length row = n) mat.

(** Entry (i, j) holds the value of entry (j, i); the diagonal holds zero. *)
Definition symmetric_hollow (n : nat) (mat : Matrix) : Prop :=
  (∀ i j, (i < n)%nat → (j < n)%nat →
     ∃ v, item mat i j = Some v ∧ item mat j i = Some v) ∧
  (∀ i, (i < n)%nat → item mat i i = Some 0%float).

End Conformers.

(** ** The steric profile as the written description words it *)

Module Described.

#[local] Open Scope Z_scope.

(** Rounding to the nearest integer, a tie going to the even neighbour. *)
Definition round (x : float) : option Z :=
  match Prim2SF x with
  | S754_zero _ => Some 0
  | S754_finite s m e =>
      let a :=
        if 0 <=? e then Z.pos m * 2 ^ e
        else
          let d := 2 ^ (- e) in
          let q := Z.pos m `div` d in
          let r := Z.pos m `mod` d in
          if 2 * r <? d then q
          else if d <? 2 * r then q + 1
          else if Z.even q then q else q + 1 in
      Some (if s then - a else a)
  | _ => None
  end.

(** [lone_pairs = (valence_electrons − formal_charge −
    round(bond_order_sum)) / 2], the division truncating toward zero, and
    [steric_number = sigma_bonds + lone_pairs]. *)
Definition derive_steric_profile
    (valence_electrons formal_charge : Z) (bond_order_sum : float)
    (sigma_bonds : Z) : option (Z * Z) :=
  match round bond_order_sum with
  | Some r =>
      let lone_pairs := (valence_electrons - formal_charge - r) `quot` 2 in
      Some (sigma_bonds + lone_pairs, lone_pairs)
  | None => None
  end.

End Described.

(** ** Sample inputs *)

Module Samples.

Import VSEPR.
#[local] Open Scope string_scope.
#[local] Open Scope Z_scope.

Definition single : Bond := {| GetBondTypeAsDouble := 1 |}.
Definition double : Bond := {| GetBondTypeAsDouble := 2 |}.
Definition one_and_a_half : Bond := {| GetBondTypeAsDouble := 1.5 |}.

(** A water-like oxygen: two single bonds, no charge. *)
Definition water_oxygen : Atom :=
  {| GetSymbol := "O"; GetFormalCharge := 0; GetTotalDegree := 2;
     GetBonds := [single; single] |}.

(** A nitrogen drawn with three double bonds. *)
Definition overbonded_nitrogen : Atom :=
  {| GetSymbol := "N"; GetFormalCharge := 0; GetTotalDegree := 3;
     GetBonds := [double; double; double] |}.

(** A nitrogen holding one bond of order one and a half. *)
Definition half_bonded_nitrogen : Atom :=
  {| GetSymbol := "N"; GetFormalCharge := 0; GetTotalDegree := 1;
     GetBonds := [one_and_a_half] |}.

(** A carbon with three single bonds and no charge. *)
Definition methyl_carbon : Atom :=
  {| GetSymbol := "C"; GetFormalCharge := 0; GetTotalDegree := 3;
     GetBonds := [single; single; single] |}.

(** A sodium cation: its symbol is not in the valence table. *)
Definition sodium : Atom :=
  {| GetSymbol := "Na"; GetFormalCharge := 1; GetTotalDegree := 0;
     GetBonds := [] |}.

(** The carbon of methane, for the hybridisation exercise. *)
Definition methane_carbon : Atom :=
  {| GetSymbol := "C"; GetFormalCharge := 0; GetTotalDegree := 4;
     GetBonds := [single; single; single; single] |}.

(** An alignment routine that answers something new at every call and
    keeps count of its calls in the world. *)
Definition counting_rms (prb ref : unit) (prbId refId : Z) (calls : nat)
  : float * nat :=
  (PrimFloat.of_uint63 (Uint63.of_Z (prbId * 10 + refId + Z.of_nat calls)),
   S calls).

End Samples.

(** ** The bond table of a molecule *)

Module BondTable.

Import Bonding.
#[local] Open Scope string_scope.

(** What the table reads off a bond of the toolkit: the symbols of its two
    atoms and the printed name of its bond type. *)
Record BondView : Type := {
  GetBeginAtomSymbol : string;
  GetEndAtomSymbol : string;
  GetBondTypeStr : string
}.

(** One dictionary appended to [data]; the fields follow its keys. *)
Record Row : Type := {
  Atom_1 : string;
  Atom_2 : string;
  Bond_type : string;
  Delta_chi : option float;
  Classification : string
}.

Section BondTable.

(** [Chem.AddHs(Chem.MolFromSmiles(smiles)).GetBonds()], the builtin
    [round(x, 2)], and [pd.DataFrame(data)]: the frame that the library
    builds from the list of dictionaries (how it stores and shows a
    missing value is the library's). *)
Context {Frame : Type}.
Variable mol_bonds : string → exn + list BondView.
Variable round2 : float → float.
Variable DataFrame : list Row → Frame.

Definition bond_table (smiles : string) : M Globals Frame :=
  bonds <- lift (mol_bonds smiles) ;;
  data <- for_each bonds (λ bond data,
    let s1 := GetBeginAtomSymbol bond in
    let s2 := GetEndAtomSymbol bond in
    delta <- en_diff s1 s2 ;;
    cls <- classify_bond delta ;;
    ret (data ++ [ {| Atom_1 := s1;
                      Atom_2 := s2;
                      Bond_type := GetBondTypeStr bond;
                      Delta_chi := match delta with
                                   | None => None
                                   | Some d => Some (round2 d)
                                   end;
                      Classification := cls |} ])%list) [] ;;
  ret (DataFrame data).

End BondTable.

End BondTable.

(** ** The worked examples of the geometry notebook *)

Module Worked.

Import VSEPR.
#[local] Open Scope string_scope.
#[local] Open Scope Z_scope.

(** [max(xs, key=key)]: the first item whose key no other item exceeds. *)
Definition max_key {A} (key : A → Z) (xs : list A) : exn + A :=
  match xs with
  | [] => inl (ValueError "max() arg is an empty sequence")
  | x :: xs' =>
      inr (fold_left (λ best a, if key best <? key a then a else best) xs' x)
  end.

(** The choice of the central atom among the atoms of a molecule. *)
Definition central_atom (atoms : list Atom) : exn + Atom :=
  max_key GetTotalDegree
    (filter (λ a, GetSymbol a ≠ "H") atoms).

(** The body of the loop for one molecule, up to the geometry it prints. *)
Definition predict (atoms : list Atom) : M Globals (Z * Z * string) :=
  central <- lift (central_atom atoms) ;;
  p <- steric_and_lps central ;;
  let '(sn, lps) := p in
  geom <- geometry_from_counts sn lps ;;
  ret (sn, lps, geom).

End Worked.

(** ** Viewing and scoring conformers *)

Module ConformerViews.

#[local] Open Scope string_scope.

(** The calls a viewer receives. *)
Inductive call : Type :=
| addModel (block fmt : string)
| setStyle (model : nat) (colour : string)
| zoomTo
| show.

(** [xs[:stop]]. *)
Definition slice_to {A} (xs : list A) (stop : Z) : list A :=
  if (0 <=? stop)%Z then take (Z.to_nat stop) xs
  else take (length xs - Z.to_nat (- stop)) xs.

(** [enumerate(xs)]. *)
Definition enumerate {A} (xs : list A) : list (nat * A) :=
  imap (λ i x, (i, x)) xs.

Definition colours : list string :=
  ["0xff0000"; "0x0000ff"; "0x00aa00"; "0xffa500"; "0x9400d3"].

Section Views.

Context {World Mol FF : Type}.

(** [Chem.MolToMolBlock(mol, confId=cid)]. *)
Variable MolToMolBlock : Mol → Z → M World string.

(** The calls made on the fresh viewer, in order. *)
Definition view_overlay (mol : Mol) (conf_ids : list Z) (max_show : Z)
  : M World (list call) :=
  view <- for_each (enumerate (slice_to conf_ids max_show))
            (λ '(i, cid) view,
               block <- MolToMolBlock mol cid ;;
               let view := (view ++ [addModel block "mol"])%list in
               colour <- lift (index colours (i `mod` length colours)) ;;
               ret (view ++ [setStyle i colour])%list) [] ;;
  let view := (view ++ [zoomTo])%list in
  ret (view ++ [show])%list.

(** [AllChem.UFFGetMoleculeForceField(mol, confId=cid)] and
    [ff.CalcEnergy()]. *)
Variable UFFGetMoleculeForceField : Mol → Z → M World FF.
Variable CalcEnergy : FF → M World float.

Definition conformer_energies (mol : Mol) (conf_ids : list Z)
  : M World (list float) :=
  for_each conf_ids
    (λ cid energies,
       ff <- UFFGetMoleculeForceField mol cid ;;
       e <- CalcEnergy ff ;;
       ret (energies ++ [e])%list) [].

End Views.

End ConformerViews.

(** ** Reading molecules from a table *)

Module ChemData.

Section Parsing.

Context {World Mol : Type}.

(** [Chem.MolFromSmiles(s)]. *)
Variable MolFromSmiles : string → M World (option Mol).

Definition smiles_to_mol (s : string) : M World (option Mol) :=
  try_except (MolFromSmiles s) (λ _, Some (ret None)).

End Parsing.

End ChemData.

(** ** Printing a hybridisation *)

Module HybridStr.

#[local] Open Scope string_scope.

(** [s.split('.')]: the pieces between the dots, never an empty list. *)
Fixpoint split_dot (s : string) : list string :=
  match s with
  | EmptyString => [""]
  | String c s' =>
      if String.eqb (String c "") "."
      then "" :: split_dot s'
      else match split_dot s' with
           | p :: ps => String c p :: ps
           | [] => [String c ""]
           end
  end.

(** Whether a dot occurs in [s]. *)
Fixpoint has_dot (s : string) : bool :=
  match s with
  | EmptyString => false
  | String c s' => String.eqb (String c "") "." || has_dot s'
  end.

(** [xs[-1]]. *)
Definition last_item {A} (xs : list A) : exn + A :=
  match last xs with
  | Some x => inr x
  | None => inl IndexError
  end.

Section HybridStr.

(** The builtin [str.lower]. *)
Variable lower : string → string.

(** The helper on the printed form of [atom.GetHybridization()]. *)
Definition hybrid_str (printed : string) : exn + string :=
  match last_item (split_dot printed) with
  | inr name => inr (lower name)
  | inl e => inl e
  end.

End HybridStr.

End HybridStr.

(** * Properties *)

(** ** Running computations *)

Create HintDb py_run discriminated.

#[global] Hint Unfold bind ret raise read lift try_except subscript get index
  : py_run.

Ltac run := autounfold with py_run; cbn beta iota.

Lemma repeatable_intro {St A} (m : M St A) :
  (∀ s, (m s).2 = s) → repeatable m.
Proof. intros Hs s. split; [apply Hs | by rewrite Hs]. Qed.

Lemma bind_store {St A B} (m : M St A) (k : A → M St B) :
  (∀ s, (m s).2 = s) → (∀ a s, (k a s).2 = s) → ∀ s, (bind m k s).2 = s.
Proof.
  intros Hm Hk s. unfold bind. specialize (Hm s).
  destruct (m s) as [[e|a] s']; cbn in *; [done|].
  subst s'. apply Hk.
Qed.

(** A loop whose body always ends normally and keeps [P] ends normally and
    keeps [P]. *)
Lemma for_each_invariant {St X A} (P : A → Prop) (xs : list X)
    (body : X → A → M St A) :
  (∀ x acc s, x ∈ xs → P acc →
     ∃ acc' s', body x acc s = (inr acc', s') ∧ P acc') →
  ∀ acc s, P acc →
    ∃ acc' s', for_each xs body acc s = (inr acc', s') ∧ P acc'.
Proof.
  induction xs as [|x xs IH]; intros Hbody acc s Hacc.
  - by exists acc, s.
  - destruct (Hbody x acc s) as (acc1 & s1 & Hrun & Hacc1);
      [by left|done|].
    destruct (IH (λ y a t Hy, Hbody y a t (list_elem_of_further _ _ _ Hy))
                acc1 s1 Hacc1) as (acc2 & s2 & Hrest & Hacc2).
    exists acc2, s2. split; [|done].
    cbn. unfold bind. by rewrite Hrun.
Qed.

Lemma elem_of_range (lo hi x : nat) : x ∈ range lo hi → lo ≤ x < hi.
Proof. unfold range. rewrite elem_of_seq. lia. Qed.

(** ** Order of binary64 values *)

Section FloatOrder.

Lemma SFcompare_Lt_swap (x y : spec_float) :
  SFcompare x y = Some Lt → SFcompare y x = Some Gt.
Proof.
  destruct x as [sx| sx | |sx mx ex], y as [sy|sy| |sy my ey]; cbn;
    try discriminate;
    repeat match goal with b : bool |- _ => destruct b end;
    try discriminate; try reflexivity.
  - rewrite (Z.compare_antisym ey ex).
    destruct (ey ?= ex)%Z; cbn; try discriminate; try reflexivity.
    change (PosDef.Pos.compare_cont Eq) with Pos.compare.
    rewrite (Pos.compare_antisym my mx).
    destruct (my ?= mx)%positive; cbn; congruence.
  - rewrite (Z.compare_antisym ey ex).
    destruct (ey ?= ex)%Z; cbn; try discriminate; try reflexivity.
    change (PosDef.Pos.compare_cont Eq) with Pos.compare.
    rewrite (Pos.compare_antisym my mx).
    destruct (my ?= mx)%positive; cbn; congruence.
Qed.

(** [x < y] excludes [y <= x]. *)
Lemma ltb_not_leb (x y : float) :
  PrimFloat.ltb x y = true → PrimFloat.leb y x = false.
Proof.
  rewrite ltb_spec, leb_spec. unfold SFltb, SFleb.
  destruct (SFcompare (Prim2SF x) (Prim2SF y)) as [[]|] eqn:E;
    try discriminate.
  intros _. by rewrite (SFcompare_Lt_swap _ _ E).
Qed.

Lemma Prim2SF_1_7 :
  Prim2SF 1.7 = S754_finite false 7656119366529843 (-52).
Proof. reflexivity. Qed.

Lemma Prim2SF_0_4 :
  Prim2SF 0.4 = S754_finite false 7205759403792794 (-54).
Proof. reflexivity. Qed.

(** The upper threshold lies above the lower one. *)
Lemma leb_1_7_0_4 (x : float) :
  PrimFloat.leb 1.7 x = true → PrimFloat.leb 0.4 x = true.
Proof.
  rewrite !leb_spec, Prim2SF_1_7, Prim2SF_0_4. unfold SFleb, SFcompare.
  destruct (Prim2SF x) as [s|s| |s m e]; cbv beta iota; try done.
  destruct s; [done|].
  destruct (Z.compare_spec (-52) e) as [<-|Hlt|Hgt]; [done| |done].
  assert (((-54) ?= e)%Z = Lt) as -> by (apply Z.compare_lt_iff; lia).
  done.
Qed.

(** [int] keeps the integral part of a finite binary64 value: the
    magnitude is rounded down, the sign is kept. *)
Lemma int_truncates (x : float) (s : bool) (m : positive) (e : Z) :
  Prim2SF x = S754_finite s m e →
  ∃ a, int x = inr (if s then - a else a)%Z ∧
       (0 ≤ e → a = Z.pos m * 2 ^ e)%Z ∧
       (e < 0 → a * 2 ^ (- e) ≤ Z.pos m < (a + 1) * 2 ^ (- e))%Z.
Proof.
  intros Hx. exists (Z.shiftl (Z.pos m) e). unfold int. rewrite Hx.
  split; [done|]. split.
  - intros He. by apply Z.shiftl_mul_pow2.
  - intros He. rewrite Z.shiftl_div_pow2 by lia.
    assert (0 < 2 ^ (- e))%Z as Hpos by (apply Z.pow_pos_nonneg; lia).
    pose proof (Z.div_mod (Z.pos m) (2 ^ (- e)) ltac:(lia)) as Hdm.
    pose proof (Z.mod_pos_bound (Z.pos m) (2 ^ (- e)) Hpos) as Hb.
    nia.
Qed.

End FloatOrder.

(** ** Bond polarity *)

Section BondPolarity.

Import Bonding.
#[local] Open Scope string_scope.

Implicit Types (g : Globals) (delta : float).

Lemma en_diff_found g (sym1 sym2 : string) (x1 x2 : float) :
  electronegativity g !! sym1 = Some x1 →
  electronegativity g !! sym2 = Some x2 →
  en_diff sym1 sym2 g = (inr (Some (PrimFloat.abs (x1 - x2)%float)), g).
Proof. intros H1 H2. unfold en_diff. run. by rewrite H1, H2. Qed.

Lemma en_diff_missing g (sym1 sym2 : string) :
  electronegativity g !! sym1 = None ∨ electronegativity g !! sym2 = None →
  en_diff sym1 sym2 g = (inr None, g).
Proof.
  intros H. unfold en_diff. run.
  destruct (electronegativity g !! sym1) as [x1|]; [|done].
  destruct H as [H|H]; [done|]. by rewrite H.
Qed.

Lemma en_diff_store (sym1 sym2 : string) g : (en_diff sym1 sym2 g).2 = g.
Proof.
  unfold en_diff. run.
  destruct (electronegativity g !! sym1); [|done].
  by destruct (electronegativity g !! sym2).
Qed.

Lemma classify_bond_store (d : option float) g : (classify_bond d g).2 = g.
Proof.
  destruct d as [delta|]; [|done]. cbn.
  destruct (PrimFloat.leb 1.7 delta); [done|].
  by destruct (PrimFloat.leb 0.4 delta).
Qed.

Lemma classify_bond_polarity_store (sym1 sym2 : string) g :
  (classify_bond_polarity sym1 sym2 g).2 = g.
Proof.
  apply bind_store; [apply en_diff_store|apply classify_bond_store].
Qed.

(** C2. [classify_bond] sorts the absolute difference [delta] of two
    electronegativity values by the fixed thresholds: [delta >= 1.7] is
    ionic, [0.4 <= delta < 1.7] is polar covalent, [delta < 0.4] is
    non-polar covalent; the values 1.7 and 0.4 themselves fall in the
    higher band; and for two symbols of the table the composed classifier
    sorts the binary64 value [abs (x1 - x2)] in this way. *)
Theorem classify_bond_thresholds :
  (∀ g delta,
     (PrimFloat.leb 1.7 delta = true →
      classify_bond (Some delta) g = (inr "ionic", g)) ∧
     (PrimFloat.leb 0.4 delta = true → PrimFloat.ltb delta 1.7 = true →
      classify_bond (Some delta) g = (inr "polar covalent", g)) ∧
     (PrimFloat.ltb delta 0.4 = true →
      classify_bond (Some delta) g = (inr "non‑polar covalent", g))) ∧
  (∀ g, classify_bond (Some 1.7%float) g = (inr "ionic", g) ∧
        classify_bond (Some 0.4%float) g = (inr "polar covalent", g)) ∧
  (∀ g (sym1 sym2 : string) (x1 x2 : float),
     electronegativity g !! sym1 = Some x1 →
     electronegativity g !! sym2 = Some x2 →
     classify_bond_polarity sym1 sym2 g
     = classify_bond (Some (PrimFloat.abs (x1 - x2)%float)) g).
Proof.
  split; [|split].
  - intros g delta. unfold classify_bond. split; [|split].
    + by intros ->.
    + intros H04 H17. by rewrite (ltb_not_leb _ _ H17), H04.
    + intros H04. pose proof (ltb_not_leb _ _ H04) as Hn.
      destruct (PrimFloat.leb 1.7 delta) eqn:E.
      * by rewrite (leb_1_7_0_4 _ E) in Hn.
      * by rewrite Hn.
  - intros g. split; reflexivity.
  - intros g sym1 sym2 x1 x2 H1 H2. unfold classify_bond_polarity.
    unfold bind at 1. by rewrite (en_diff_found _ _ _ _ _ H1 H2).
Qed.

Lemma classify_bond_thresholds_witness :
  classify_bond_polarity "Na" "Cl" initial = (inr "ionic", initial) ∧
  classify_bond_polarity "H" "Cl" initial = (inr "polar covalent", initial) ∧
  classify_bond_polarity "C" "H" initial
  = (inr "non‑polar covalent", initial).
Proof.
  destruct classify_bond_thresholds as (Hband & _ & Hcomp).
  split; [|split].
  - rewrite (Hcomp initial "Na" "Cl" 0.93%float 3.16%float);
      [|by vm_compute..].
    apply Hband. by vm_compute.
  - rewrite (Hcomp initial "H" "Cl" 2.20%float 3.16%float);
      [|by vm_compute..].
    apply Hband; by vm_compute.
  - rewrite (Hcomp initial "C" "H" 2.55%float 2.20%float);
      [|by vm_compute..].
    apply Hband. by vm_compute.
Defined.

(** Two table entries whose decimal values differ by 0.40: the binary64
    difference is just below the binary64 threshold. *)
Example nitrogen_oxygen :
  en_diff "N" "O" initial = (inr (Some 0.39999999999999991%float), initial) ∧
  classify_bond_polarity "N" "O" initial
  = (inr "non‑polar covalent", initial).
Proof. split; by vm_compute. Qed.

(** C6. When at least one of the two symbols is absent from the
    electronegativity table, whatever the table currently holds, the
    composed classifier ends normally with the label "unknown". *)
Theorem unknown_symbol_unknown g (sym1 sym2 : string) :
  electronegativity g !! sym1 = None ∨ electronegativity g !! sym2 = None →
  classify_bond_polarity sym1 sym2 g = (inr "unknown", g).
Proof.
  intros H. unfold classify_bond_polarity. unfold bind at 1.
  by rewrite (en_diff_missing _ _ _ H).
Qed.

Lemma unknown_symbol_unknown_witness :
  classify_bond_polarity "Xx" "Cl" initial = (inr "unknown", initial) ∧
  classify_bond_polarity "Cl" "Xx" initial = (inr "unknown", initial).
Proof.
  split.
  - apply (unknown_symbol_unknown initial "Xx" "Cl"). left. by vm_compute.
  - apply (unknown_symbol_unknown initial "Cl" "Xx"). right. by vm_compute.
Defined.

(** The table grows only through the cell that updates it: lithium is
    unknown before that cell ran and known afterwards. *)
Example lithium_fluoride :
  classify_bond_polarity "Li" "F" initial = (inr "unknown", initial) ∧
  classify_bond_polarity "Li" "F" (extend_table initial).2
  = (inr "ionic", (extend_table initial).2).
Proof. split; by vm_compute. Qed.

End BondPolarity.

(** ** VSEPR geometry *)

Section Geometry.

Import VSEPR Samples.
#[local] Open Scope string_scope.
#[local] Open Scope Z_scope.

Implicit Types (g : Globals) (atom : Atom) (steric lps ve k : Z).

Lemma geometry_from_counts_store steric lps g :
  (geometry_from_counts steric lps g).2 = g.
Proof. done. Qed.

(** C1. On each of the thirteen keys of the geometry table the lookup
    returns the label stored under it, and on every other pair of integers
    it ends normally with "unknown". *)
Theorem geometry_from_counts_table :
  (geometry_from_counts 2 0 initial = (inr "linear", initial) ∧
   geometry_from_counts 3 0 initial = (inr "trigonal planar", initial) ∧
   geometry_from_counts 3 1 initial = (inr "bent (120°)", initial) ∧
   geometry_from_counts 4 0 initial = (inr "tetrahedral", initial) ∧
   geometry_from_counts 4 1 initial = (inr "trigonal pyramidal", initial) ∧
   geometry_from_counts 4 2 initial = (inr "bent (109°)", initial) ∧
   geometry_from_counts 5 0 initial = (inr "trigonal bipyramidal", initial) ∧
   geometry_from_counts 5 1 initial = (inr "seesaw", initial) ∧
   geometry_from_counts 5 2 initial = (inr "T-shaped", initial) ∧
   geometry_from_counts 5 3 initial = (inr "linear", initial) ∧
   geometry_from_counts 6 0 initial = (inr "octahedral", initial) ∧
   geometry_from_counts 6 1 initial = (inr "square pyramidal", initial) ∧
   geometry_from_counts 6 2 initial = (inr "square planar", initial)) ∧
  (∀ steric lps,
     (steric, lps) ∉
       [ (2, 0); (3, 0); (3, 1); (4, 0); (4, 1); (4, 2); (5, 0); (5, 1);
         (5, 2); (5, 3); (6, 0); (6, 1); (6, 2) ] →
     geometry_from_counts steric lps initial = (inr "unknown", initial)).
Proof.
  split.
  - repeat (split; [by vm_compute|]). by vm_compute.
  - intros steric lps Hout. unfold geometry_from_counts. run.
    assert (GEOM_MAP !! (steric, lps) = None) as Hnone.
    { apply not_elem_of_list_to_map_1. exact Hout. }
    unfold initial; cbn [geom_map]. by rewrite Hnone.
Qed.

Lemma geometry_from_counts_table_witness :
  geometry_from_counts 2 1 initial = (inr "unknown", initial) ∧
  geometry_from_counts 7 0 initial = (inr "unknown", initial) ∧
  geometry_from_counts 4 (-1) initial = (inr "unknown", initial).
Proof.
  destruct geometry_from_counts_table as [_ Hout].
  split; [|split]; apply Hout; apply (bool_decide_unpack _); by vm_compute.
Defined.

(** *** The steric profile *)

Lemma steric_and_lps_supported g atom ve k :
  VE !! GetSymbol atom = Some ve →
  int (bond_order_sum atom) = inr k →
  steric_and_lps atom g
  = (inr (GetTotalDegree atom + (ve - GetFormalCharge atom - k) `div` 2,
          (ve - GetFormalCharge atom - k) `div` 2), g).
Proof.
  intros Hve Hk. unfold steric_and_lps. rewrite Hve. run. by rewrite Hk.
Qed.

Lemma steric_and_lps_store atom g : (steric_and_lps atom g).2 = g.
Proof.
  unfold steric_and_lps. destruct (VE !! GetSymbol atom); [|done]. run.
  by destruct (int _).
Qed.

(** Halving by floor: the quotient [q] of [n] is the integer with
    [2 q <= n < 2 q + 2]. *)
Lemma floor_half_bounds (n : Z) : 2 * (n `div` 2) ≤ n < 2 * (n `div` 2) + 2.
Proof.
  pose proof (Z.div_mod n 2 ltac:(lia)).
  pose proof (Z.mod_pos_bound n 2 ltac:(lia)). lia.
Qed.

(** Where floor and truncation toward zero agree: a numerator that is not
    negative, or an even one. *)
Lemma floor_is_truncation (n : Z) :
  0 ≤ n ∨ Z.even n = true → n `div` 2 = n `quot` 2.
Proof.
  intros [Hn|Hn].
  - symmetry. by apply Z.quot_div_nonneg.
  - apply Z.even_spec in Hn as [h ->].
    rewrite (Z.mul_comm 2 h), Z.div_mul, Z.quot_mul; lia.
Qed.

(** C3. For a supported element and a finite bond-order sum the helper
    returns [lone_pairs = floor ((valence_electrons - formal_charge -
    int bond_order_sum) / 2)], where [int] drops the fractional part of the
    sum and the division rounds toward minus infinity, and
    [steric_number = sigma_bonds + lone_pairs]. *)
Theorem steric_and_lps_floor g atom ve k :
  VE !! GetSymbol atom = Some ve →
  int (bond_order_sum atom) = inr k →
  ∃ lps,
    steric_and_lps atom g = (inr (GetTotalDegree atom + lps, lps), g) ∧
    lps = (ve - GetFormalCharge atom - k) `div` 2 ∧
    2 * lps ≤ ve - GetFormalCharge atom - k < 2 * lps + 2.
Proof.
  intros Hve Hk. eexists. split; [by apply steric_and_lps_supported|].
  split; [done|]. apply floor_half_bounds.
Qed.

Lemma steric_and_lps_floor_witness :
  ∃ lps,
    steric_and_lps overbonded_nitrogen initial
    = (inr (3 + lps, lps), initial) ∧
    lps = (5 - 0 - 6) `div` 2 ∧
    2 * lps ≤ 5 - 0 - 6 < 2 * lps + 2.
Proof.
  apply (steric_and_lps_floor initial overbonded_nitrogen 5 6);
    by vm_compute.
Defined.

(** C3, against the formula as described.  The two part ways on a negative
    odd numerator (truncation toward zero against floor) and on a
    fractional bond-order sum (rounding against dropping the fraction). *)
Lemma steric_and_lps_not_described :
  (VE !! GetSymbol overbonded_nitrogen = Some 5 ∧
   Described.derive_steric_profile 5 0 (bond_order_sum overbonded_nitrogen) 3
   = Some (3, 0) ∧
   steric_and_lps overbonded_nitrogen initial = (inr (2, -1), initial)) ∧
  (VE !! GetSymbol half_bonded_nitrogen = Some 5 ∧
   Described.derive_steric_profile 5 0 (bond_order_sum half_bonded_nitrogen) 1
   = Some (2, 1) ∧
   steric_and_lps half_bonded_nitrogen initial = (inr (3, 2), initial)).
Proof. repeat split; by vm_compute. Qed.

(** C5. For a symbol that the valence table does not hold the helper
    raises [ValueError] and returns no profile. *)
Theorem unsupported_element_raises g atom :
  VE !! GetSymbol atom = None →
  steric_and_lps atom g
  = (inl (ValueError ("Valence electrons unknown for " +:+ GetSymbol atom)),
     g).
Proof. intros Hve. unfold steric_and_lps. by rewrite Hve. Qed.

Lemma unsupported_element_raises_witness :
  steric_and_lps sodium initial
  = (inl (ValueError "Valence electrons unknown for Na"), initial).
Proof.
  apply (unsupported_element_raises initial sodium). by vm_compute.
Defined.

(** C7. The helper has no guard on the arithmetic: for a supported element
    and a finite bond-order sum it always returns a profile of two
    integers; the lone-pair count is the floor of half the numerator
    [valence_electrons - formal_charge - int bond_order_sum] (an odd
    numerator is halved silently), it is negative exactly when the
    numerator is, and the steric number is the sigma count plus it. *)
Theorem steric_and_lps_unguarded g atom ve k :
  VE !! GetSymbol atom = Some ve →
  int (bond_order_sum atom) = inr k →
  ∃ steric lps,
    steric_and_lps atom g = (inr (steric, lps), g) ∧
    lps = (ve - GetFormalCharge atom - k) `div` 2 ∧
    2 * lps ≤ ve - GetFormalCharge atom - k < 2 * lps + 2 ∧
    steric = GetTotalDegree atom + lps ∧
    (lps < 0 ↔ ve - GetFormalCharge atom - k < 0) ∧
    (0 ≤ lps → 0 ≤ GetTotalDegree atom → 0 ≤ steric).
Proof.
  intros Hve Hk. eexists _, _.
  split; [by apply steric_and_lps_supported|]. split; [done|].
  pose proof (floor_half_bounds (ve - GetFormalCharge atom - k)).
  split; [done|]. split; [done|]. lia.
Qed.

Lemma steric_and_lps_unguarded_witness :
  ∃ steric lps,
    steric_and_lps methyl_carbon initial = (inr (steric, lps), initial) ∧
    lps = (4 - 0 - 3) `div` 2 ∧
    2 * lps ≤ 4 - 0 - 3 < 2 * lps + 2 ∧
    steric = 3 + lps ∧
    (lps < 0 ↔ 4 - 0 - 3 < 0) ∧
    (0 ≤ lps → 0 ≤ 3 → 0 ≤ steric).
Proof.
  apply (steric_and_lps_unguarded initial methyl_carbon 4 3); by vm_compute.
Defined.

(** C7, against the demand for an input error.  A negative count is handed
    back, and an odd numerator is halved silently. *)
Lemma negative_lone_pairs_returned :
  (VE !! GetSymbol overbonded_nitrogen = Some 5 ∧
   int (bond_order_sum overbonded_nitrogen) = inr 6 ∧
   steric_and_lps overbonded_nitrogen initial = (inr (2, -1), initial)) ∧
  (VE !! GetSymbol methyl_carbon = Some 4 ∧
   int (bond_order_sum methyl_carbon) = inr 3 ∧
   steric_and_lps methyl_carbon initial = (inr (3, 0), initial)).
Proof. repeat split; by vm_compute. Qed.

(** C8. The water-like oxygen (six valence electrons, no charge, bond
    orders summing to two, two sigma bonds) has two lone pairs and steric
    number four, and (4, 2) is labelled "bent (109°)". *)
Theorem water_oxygen_profile :
  VE !! GetSymbol water_oxygen = Some 6 ∧
  GetFormalCharge water_oxygen = 0 ∧
  bond_order_sum water_oxygen = 2%float ∧
  GetTotalDegree water_oxygen = 2 ∧
  steric_and_lps water_oxygen initial = (inr (4, 2), initial) ∧
  geometry_from_counts 4 2 initial = (inr "bent (109°)", initial).
Proof. repeat split; by vm_compute. Qed.

End Geometry.

(** ** The hybridisation exercise *)

Section HybridisationFacts.

Import Hybridisation.

Lemma predict_hybridisation_store {St Atom} (atom : Atom) (s : St) :
  (predict_hybridisation atom s).2 = s.
Proof. done. Qed.

(** C4. The cell of the exercise holds no mapping from steric numbers to
    labels: on every atom, the carbon of methane (steric number four)
    among them, it raises [NotImplementedError]. *)
Theorem predict_hybridisation_unimplemented :
  (∀ (St Atom : Type) (atom : Atom) (s : St),
     predict_hybridisation atom s = (inl NotImplementedError, s)) ∧
  VSEPR.steric_and_lps Samples.methane_carbon VSEPR.initial
  = (inr (4, 0)%Z, VSEPR.initial) ∧
  predict_hybridisation Samples.methane_carbon VSEPR.initial
  = (inl NotImplementedError, VSEPR.initial).
Proof. split; [done|]. split; by vm_compute. Qed.

End HybridisationFacts.

(** ** Conformer diversity *)

Section ConformerFacts.

Import Conformers.

Lemma square_zeros n : square n (zeros n n).
Proof.
  split; [apply length_replicate|].
  apply Forall_replicate, length_replicate.
Qed.

Lemma item_zeros n i j : i < n → j < n → item (zeros n n) i j = Some 0%float.
Proof.
  intros Hi Hj. unfold item, zeros.
  rewrite (lookup_replicate_2 _ _ _ Hi). by apply lookup_replicate_2.
Qed.

(** An assignment inside a square array succeeds, keeps the array square
    and changes the one entry it names. *)
Lemma setitem_square n mat i j v :
  square n mat → i < n → j < n →
  ∃ mat', setitem mat i j v = inr mat' ∧ square n mat' ∧
    ∀ a b, item mat' a b
           = if decide (a = i ∧ b = j) then Some v else item mat a b.
Proof.
  intros [Hlen Hrows] Hi Hj. unfold setitem.
  destruct (lookup_lt_is_Some_2 mat i) as [row Hrow]; [lia|].
  rewrite Hrow.
  assert (length row = n) as Hrowlen.
  { by apply (Forall_lookup_1 _ _ _ _ Hrows Hrow). }
  rewrite decide_True by lia.
  eexists. split; [done|]. split.
  - split; [by rewrite length_insert|].
    apply Forall_insert; [done|]. by rewrite length_insert.
  - intros a b. unfold item. destruct (decide (a = i)) as [->|Hai].
    + rewrite list_lookup_insert_eq, Hrow by lia.
      destruct (decide (b = j)) as [->|Hbj].
      * rewrite decide_True by done. apply list_lookup_insert_eq. lia.
      * rewrite decide_False by tauto. by apply list_lookup_insert_ne.
    + rewrite decide_False by tauto. by rewrite list_lookup_insert_ne.
Qed.

Lemma symmetric_hollow_zeros n : symmetric_hollow n (zeros n n).
Proof.
  split.
  - intros i j Hi Hj. exists 0%float. by rewrite !item_zeros.
  - intros i Hi. by apply item_zeros.
Qed.

(** Writing one value at (i, j) and at (j, i), off the diagonal. *)
Lemma setitem_pair n mat i j v :
  square n mat → symmetric_hollow n mat → i < n → j < n → i ≠ j →
  ∃ mat1 mat2,
    setitem mat i j v = inr mat1 ∧ setitem mat1 j i v = inr mat2 ∧
    square n mat2 ∧ symmetric_hollow n mat2.
Proof.
  intros Hsq [Hsym Hdiag] Hi Hj Hij.
  destruct (setitem_square n mat i j v Hsq Hi Hj) as (mat1 & E1 & Hsq1 & H1).
  destruct (setitem_square n mat1 j i v Hsq1 Hj Hi)
    as (mat2 & E2 & Hsq2 & H2).
  exists mat1, mat2. do 3 (split; [done|]). split.
  - intros a b Ha Hb. rewrite !H2, !H1.
    destruct (Hsym a b Ha Hb) as (w & Hab & Hba).
    destruct (decide (a = j ∧ b = i)) as [[-> ->]|Hn1].
    + exists v. split; [done|].
      rewrite decide_False by lia. by rewrite decide_True.
    + destruct (decide (a = i ∧ b = j)) as [[-> ->]|Hn2].
      * exists v. split; [done|]. by rewrite decide_True.
      * exists w. split; [done|].
        rewrite decide_False by lia. by rewrite decide_False by lia.
  - intros a Ha. rewrite H2, H1.
    rewrite decide_False by lia. rewrite decide_False by lia.
    by apply Hdiag.
Qed.

Context {World Mol : Type}.
Variable GetBestRMS : Mol → Mol → Z → Z → World → float * World.

Lemma rmsd_inner_step (mol : Mol) (conf_ids : list Z) (i j : nat)
    (mat : Matrix) (w : World) :
  square (length conf_ids) mat → symmetric_hollow (length conf_ids) mat →
  i < length conf_ids → j < length conf_ids → i ≠ j →
  ∃ mat' w',
    (prbId <- lift (index conf_ids i) ;;
     refId <- lift (index conf_ids j) ;;
     v <- call_GetBestRMS GetBestRMS mol mol prbId refId ;;
     mat <- lift (setitem mat i j v) ;;
     lift (setitem mat j i v)) w = (inr mat', w') ∧
    square (length conf_ids) mat' ∧ symmetric_hollow (length conf_ids) mat'.
Proof.
  intros Hsq Hshape Hi Hj Hij.
  destruct (lookup_lt_is_Some_2 conf_ids i Hi) as [ci Hci].
  destruct (lookup_lt_is_Some_2 conf_ids j Hj) as [cj Hcj].
  run. rewrite Hci, Hcj. unfold call_GetBestRMS.
  destruct (GetBestRMS mol mol ci cj w) as [v w'].
  destruct (setitem_pair _ mat i j v Hsq Hshape Hi Hj Hij)
    as (mat1 & mat2 & E1 & E2 & Hshape2).
  rewrite E1, E2. by exists mat2, w'.
Qed.

(** C10. Whatever the alignment routine answers and however it changes
    the world, for every molecule and every list of [n] conformer ids
    [rmsd_matrix] returns an array of [n] rows of [n] entries in which
    entry (i, j) holds the value of entry (j, i) and every diagonal entry
    is zero. *)
Theorem rmsd_matrix_symmetric (mol : Mol) (conf_ids : list Z) (w : World) :
  ∃ mat w',
    rmsd_matrix GetBestRMS mol conf_ids w = (inr mat, w') ∧
    square (length conf_ids) mat ∧
    symmetric_hollow (length conf_ids) mat.
Proof.
  unfold rmsd_matrix.
  apply (for_each_invariant
           (λ mat, square (length conf_ids) mat ∧
                   symmetric_hollow (length conf_ids) mat)).
  - intros i acc s Hi Hacc. apply elem_of_range in Hi.
    apply (for_each_invariant
             (λ mat, square (length conf_ids) mat ∧
                     symmetric_hollow (length conf_ids) mat)); [|done].
    intros j acc1 s1 Hj [Hsq1 Hsh1]. apply elem_of_range in Hj.
    apply rmsd_inner_step; [done|done|lia..].
  - split; [apply square_zeros|apply symmetric_hollow_zeros].
Qed.

End ConformerFacts.

Lemma rmsd_matrix_symmetric_witness :
  ∃ mat calls,
    Conformers.rmsd_matrix Samples.counting_rms tt [7; 8; 9]%Z 0
    = (inr mat, calls) ∧
    (∃ v, Conformers.item mat 0 2 = Some v ∧ Conformers.item mat 2 0 = Some v) ∧
    Conformers.item mat 1 1 = Some 0%float.
Proof.
  destruct (rmsd_matrix_symmetric Samples.counting_rms tt [7; 8; 9]%Z 0)
    as (mat & calls & Hrun & _ & Hsym & Hdiag).
  exists mat, calls. split; [exact Hrun|]. split.
  - apply Hsym; cbn; lia.
  - apply Hdiag; cbn; lia.
Defined.

(** The routine of the sample answers three different numbers; each lands
    on both sides of the diagonal. *)
Example rmsd_matrix_counting :
  Conformers.rmsd_matrix Samples.counting_rms tt [7; 8; 9]%Z 0
  = (inr [ [0; 78; 80]; [78; 0; 91]; [80; 91; 0] ]%float, 3).
Proof. by vm_compute. Qed.

(** ** Purity of the classifiers *)

(** C9. Every classifier hands the store of module-level tables back as it
    found it, whatever the tables hold, and answers the same when it is
    called again on the same input. *)
Theorem classifiers_repeatable :
  (∀ steric lps : Z, repeatable (VSEPR.geometry_from_counts steric lps)) ∧
  (∀ (St Atom : Type) (atom : Atom),
     repeatable (Hybridisation.predict_hybridisation (St := St) atom)) ∧
  (∀ atom : VSEPR.Atom, repeatable (VSEPR.steric_and_lps atom)) ∧
  (∀ sym1 sym2 : string, repeatable (Bonding.en_diff sym1 sym2)) ∧
  (∀ delta : option float, repeatable (Bonding.classify_bond delta)) ∧
  (∀ sym1 sym2 : string,
     repeatable (Bonding.classify_bond_polarity sym1 sym2)).
Proof.
  split; [|split; [|split; [|split; [|split]]]];
    intros; apply repeatable_intro.
  - apply geometry_from_counts_store.
  - apply predict_hybridisation_store.
  - apply steric_and_lps_store.
  - apply en_diff_store.
  - apply classify_bond_store.
  - apply classify_bond_polarity_store.
Qed.

(** * Further properties *)

(** ** Binary64 subtraction and order *)

Section FloatFacts.

(** The magnitude of a rounded value does not depend on its sign. *)
Lemma SFabs_binary_round (s : bool) (m : positive) (e : Z) :
  SFabs (binary_round prec emax s m e)
  = SFabs (binary_round prec emax false m e).
Proof.
  unfold binary_round.
  destruct (shl_align m e _) as [mz ez].
  unfold binary_round_aux.
  destruct (shr_fexp prec emax (Z.pos mz) ez loc_Exact) as [mrs' e'].
  destruct (shr_fexp prec emax _ e' loc_Exact) as [mrs'' e''].
  destruct (shr_m mrs''); [done| |done].
  by destruct (_ <=? _)%Z.
Qed.

Lemma SFabs_binary_normalize_opp (z e : Z) :
  SFabs (binary_normalize prec emax (- z) e false)
  = SFabs (binary_normalize prec emax z e false).
Proof.
  destruct z as [|m|m]; cbn [Z.opp binary_normalize]; [done|..].
  - apply SFabs_binary_round.
  - symmetry. apply SFabs_binary_round.
Qed.

Lemma SFabs_SFsub_swap (x y : spec_float) :
  SFabs (SFsub prec emax x y) = SFabs (SFsub prec emax y x).
Proof.
  destruct x as [sx|sx| |sx mx ex], y as [sy|sy| |sy my ey];
    try (cbn; by repeat match goal with b : bool |- _ => destruct b end).
  unfold SFsub. rewrite (Z.min_comm ey ex).
  rewrite <- SFabs_binary_normalize_opp. f_equal. f_equal. lia.
Qed.

(** [abs (x - y)] and [abs (y - x)] are the same binary64 value. *)
Lemma abs_sub_swap (x y : float) :
  PrimFloat.abs (x - y) = PrimFloat.abs (y - x).
Proof.
  apply Prim2SF_inj. rewrite !abs_spec, !sub_spec. apply SFabs_SFsub_swap.
Qed.

Lemma shl_align_self (m : positive) (e : Z) :
  shl_align m e (Z.min e e) = (m, e).
Proof. unfold shl_align. by rewrite Z.min_id, Z.sub_diag. Qed.

(** [x - x] is positive zero, or not a number when [x] is not finite. *)
Lemma SFsub_diag (x : spec_float) :
  SFsub prec emax x x = S754_zero false ∨ SFsub prec emax x x = S754_nan.
Proof.
  destruct x as [s|s| |s m e]; cbn.
  - left. by destruct s.
  - right. by destruct s.
  - by right.
  - left. unfold SFsub. rewrite shl_align_self. cbn [fst].
    by rewrite Z.sub_diag.
Qed.

Lemma leb_abs_sub_diag (x : float) :
  PrimFloat.leb 1.7 (PrimFloat.abs (x - x)) = false ∧
  PrimFloat.leb 0.4 (PrimFloat.abs (x - x)) = false.
Proof.
  rewrite !leb_spec, abs_spec, sub_spec, Prim2SF_1_7, Prim2SF_0_4.
  unfold SF64sub. by destruct (SFsub_diag (Prim2SF x)) as [-> | ->].
Qed.

Lemma SFleb_trans (x y z : spec_float) :
  SFleb x y = true → SFleb y z = true → SFleb x z = true.
Proof.
  unfold SFleb, SFcompare.
  destruct x as [sx|sx| |sx mx ex], y as [sy|sy| |sy my ey],
    z as [sz|sz| |sz mz ez];
    repeat match goal with b : bool |- _ => destruct b end;
    try done;
    change (PosDef.Pos.compare_cont Eq) with Pos.compare;
    destruct (Z.compare_spec ex ey), (Z.compare_spec ey ez),
      (Z.compare_spec ex ez); try done; try lia; subst;
    destruct (Pos.compare_spec mx my), (Pos.compare_spec my mz),
      (Pos.compare_spec mx mz); try done; try lia.
Qed.

Lemma leb_trans (x y z : float) :
  PrimFloat.leb x y = true → PrimFloat.leb y z = true →
  PrimFloat.leb x z = true.
Proof. rewrite !leb_spec. apply SFleb_trans. Qed.

End FloatFacts.

(** ** More on bond polarity *)

Section BondPolarityMore.

Import Bonding.
#[local] Open Scope string_scope.

Implicit Types (g : Globals).

(** X1. The two helpers do not care about the order of the two symbols:
    for every state of the table, [en_diff] and the classification of a
    pair are the same as for the swapped pair. *)
Theorem classify_bond_polarity_swap g (sym1 sym2 : string) :
  en_diff sym1 sym2 g = en_diff sym2 sym1 g ∧
  classify_bond_polarity sym1 sym2 g = classify_bond_polarity sym2 sym1 g.
Proof.
  assert (en_diff sym1 sym2 g = en_diff sym2 sym1 g) as Hswap.
  { destruct (electronegativity g !! sym1) as [x1|] eqn:H1;
      destruct (electronegativity g !! sym2) as [x2|] eqn:H2.
    - rewrite (en_diff_found _ _ _ _ _ H1 H2), (en_diff_found _ _ _ _ _ H2 H1).
      by rewrite abs_sub_swap.
    - rewrite !en_diff_missing; auto.
    - rewrite !en_diff_missing; auto.
    - rewrite !en_diff_missing; auto. }
  split; [done|]. unfold classify_bond_polarity, bind. by rewrite Hswap.
Qed.

(** X2. A bond between two atoms of the same element of the table is
    always classified non-polar covalent, whatever value the table holds
    for it. *)
Theorem same_element_non_polar g (sym : string) (x : float) :
  electronegativity g !! sym = Some x →
  classify_bond_polarity sym sym g = (inr "non‑polar covalent", g).
Proof.
  intros Hx. unfold classify_bond_polarity. unfold bind at 1.
  rewrite (en_diff_found _ _ _ _ _ Hx Hx). unfold classify_bond.
  by destruct (leb_abs_sub_diag x) as [-> ->].
Qed.

Lemma same_element_non_polar_witness :
  classify_bond_polarity "Cl" "Cl" initial
  = (inr "non‑polar covalent", initial).
Proof.
  apply (same_element_non_polar initial "Cl" 3.16%float). by vm_compute.
Defined.

Lemma classify_bond_returns g (delta : option float) :
  ∃ label,
    classify_bond delta g = (inr label, g) ∧
    label ∈ ["unknown"; "ionic"; "polar covalent"; "non‑polar covalent"] ∧
    (label = "unknown" ↔ delta = None).
Proof.
  destruct delta as [d|]; cbn.
  - destruct (PrimFloat.leb 1.7 d); [|destruct (PrimFloat.leb 0.4 d)];
      eexists; (split; [done|]); (split; [set_solver|]); by split.
  - eexists. split; [done|]. split; [set_solver|done].
Qed.

(** X3. [classify_bond] always ends normally with one of four labels,
    also for a difference that is infinite or not a number, and the label
    is "unknown" exactly when no difference was given. *)
Theorem classify_bond_labels g (delta : option float) :
  ∃ label,
    classify_bond delta g = (inr label, g) ∧
    label ∈ ["unknown"; "ionic"; "polar covalent"; "non‑polar covalent"] ∧
    (label = "unknown" ↔ delta = None).
Proof. apply classify_bond_returns. Qed.

(** X4. The classification grows with the difference: when
    [delta1 <= delta2], an ionic [delta1] makes [delta2] ionic, and a
    non-polar [delta2] makes [delta1] non-polar. *)
Theorem classify_bond_monotone g (delta1 delta2 : float) :
  PrimFloat.leb delta1 delta2 = true →
  (classify_bond (Some delta1) g = (inr "ionic", g) →
   classify_bond (Some delta2) g = (inr "ionic", g)) ∧
  (classify_bond (Some delta2) g = (inr "non‑polar covalent", g) →
   classify_bond (Some delta1) g = (inr "non‑polar covalent", g)).
Proof.
  intros Hle. unfold classify_bond. split.
  - destruct (PrimFloat.leb 1.7 delta1) eqn:E1.
    + by rewrite (leb_trans _ _ _ E1 Hle).
    + by destruct (PrimFloat.leb 0.4 delta1).
  - destruct (PrimFloat.leb 1.7 delta2) eqn:E2; [done|].
    destruct (PrimFloat.leb 0.4 delta2) eqn:E3; [done|]. intros _.
    destruct (PrimFloat.leb 1.7 delta1) eqn:E1.
    { by rewrite (leb_trans _ _ _ E1 Hle) in E2. }
    destruct (PrimFloat.leb 0.4 delta1) eqn:E4; [|done].
    by rewrite (leb_trans _ _ _ E4 Hle) in E3.
Qed.

Lemma classify_bond_monotone_witness :
  (classify_bond (Some 1.8%float) initial = (inr "ionic", initial) →
   classify_bond (Some 2.5%float) initial = (inr "ionic", initial)) ∧
  (classify_bond (Some 2.5%float) initial
   = (inr "non‑polar covalent", initial) →
   classify_bond (Some 1.8%float) initial
   = (inr "non‑polar covalent", initial)).
Proof.
  apply (classify_bond_monotone initial 1.8%float 2.5%float). by vm_compute.
Defined.

(** *** The cell that extends the table *)

Lemma extend_table_lookup_other g (sym : string) :
  sym ∉ ["Li"; "Sr"; "B"; "Se"; "Te"] →
  electronegativity (extend_table g).2 !! sym = electronegativity g !! sym.
Proof.
  intros Hout. cbn.
  rewrite !lookup_insert_ne; [done|..]; intros <-; apply Hout; set_solver.
Qed.

(** X5. Extending the table leaves every pair alone that names none of
    the five added symbols: its difference and its classification are what
    they were before. *)
Theorem extend_table_frame g (sym1 sym2 : string) :
  sym1 ∉ ["Li"; "Sr"; "B"; "Se"; "Te"] →
  sym2 ∉ ["Li"; "Sr"; "B"; "Se"; "Te"] →
  (en_diff sym1 sym2 (extend_table g).2).1 = (en_diff sym1 sym2 g).1 ∧
  (classify_bond_polarity sym1 sym2 (extend_table g).2).1
  = (classify_bond_polarity sym1 sym2 g).1.
Proof.
  intros H1 H2.
  pose proof (extend_table_lookup_other g sym1 H1) as L1.
  pose proof (extend_table_lookup_other g sym2 H2) as L2.
  assert ((en_diff sym1 sym2 (extend_table g).2).1 = (en_diff sym1 sym2 g).1)
    as Hd.
  { destruct (electronegativity g !! sym1) as [x1|] eqn:E1;
      destruct (electronegativity g !! sym2) as [x2|] eqn:E2.
    - by rewrite (en_diff_found _ _ _ _ _ E1 E2),
        (en_diff_found _ sym1 sym2 x1 x2) by congruence.
    - rewrite !en_diff_missing; [done|by right|right; congruence].
    - rewrite !en_diff_missing; [done|by left|left; congruence].
    - rewrite !en_diff_missing; [done|by left|left; congruence]. }
  split; [done|]. unfold classify_bond_polarity, bind.
  pose proof (en_diff_store sym1 sym2 g) as S1.
  pose proof (en_diff_store sym1 sym2 (extend_table g).2) as S2.
  destruct (en_diff sym1 sym2 g) as [r1 g1],
    (en_diff sym1 sym2 (extend_table g).2) as [r2 g2].
  cbn in Hd, S1, S2. subst r2 g1 g2.
  destruct r1 as [e|[d|]]; cbn; [done| |done].
  destruct (PrimFloat.leb 1.7 d); [done|]. by destruct (PrimFloat.leb 0.4 d).
Qed.

Lemma extend_table_frame_witness :
  (en_diff "Na" "Cl" (extend_table initial).2).1
  = (en_diff "Na" "Cl" initial).1 ∧
  (classify_bond_polarity "Na" "Cl" (extend_table initial).2).1
  = (classify_bond_polarity "Na" "Cl" initial).1.
Proof.
  apply (extend_table_frame initial "Na" "Cl");
    apply (bool_decide_unpack _); by vm_compute.
Defined.

(** X6. After the extending cell every one of the five symbols is in the
    table with the value of the cell, whatever the table held before, and
    running the cell a second time changes nothing. *)
Theorem extend_table_known g :
  electronegativity (extend_table g).2 !! "Li" = Some 0.98%float ∧
  electronegativity (extend_table g).2 !! "Sr" = Some 0.95%float ∧
  electronegativity (extend_table g).2 !! "B" = Some 2.04%float ∧
  electronegativity (extend_table g).2 !! "Se" = Some 2.55%float ∧
  electronegativity (extend_table g).2 !! "Te" = Some 2.10%float ∧
  (extend_table (extend_table g).2).2 = (extend_table g).2.
Proof.
  repeat split; cbn; try by simplify_map_eq.
  f_equal. apply map_eq. intros k.
  rewrite !lookup_insert. repeat case_decide; done.
Qed.

End BondPolarityMore.

(** ** The bond table *)

Section BondTableFacts.

Import Bonding BondTable.
#[local] Open Scope string_scope.

Implicit Types (g : Globals).

(** [en_diff] always ends normally, and answers [None] exactly when a
    symbol is missing. *)
Lemma en_diff_total g (sym1 sym2 : string) :
  ∃ d, en_diff sym1 sym2 g = (inr d, g) ∧
       (d = None ↔ electronegativity g !! sym1 = None ∨
                   electronegativity g !! sym2 = None).
Proof.
  destruct (electronegativity g !! sym1) as [x1|] eqn:H1;
    destruct (electronegativity g !! sym2) as [x2|] eqn:H2.
  - eexists. split; [by apply en_diff_found|].
    split; [done|]. intros [?|?]; discriminate.
  - exists None. split; [apply en_diff_missing; auto|split; auto].
  - exists None. split; [apply en_diff_missing; auto|split; auto].
  - exists None. split; [apply en_diff_missing; auto|split; auto].
Qed.

(** A loop whose body appends one item that depends on the element and
    the store, and keeps the store, appends the items of all elements. *)
Lemma for_each_append {St X B} (f : St → X → B) (xs : list X)
    (body : X → list B → M St (list B)) :
  (∀ x acc s, body x acc s = (inr (acc ++ [f s x])%list, s)) →
  ∀ acc s, for_each xs body acc s = (inr (acc ++ (f s <$> xs))%list, s).
Proof.
  intros Hbody. induction xs as [|x xs IH]; intros acc s; cbn.
  - by rewrite app_nil_r.
  - unfold bind. rewrite Hbody, IH. by rewrite <- app_assoc.
Qed.

Context {Frame : Type}.
Variable mol_bonds : string → exn + list BondView.
Variable round2 : float → float.
Variable DataFrame : list Row → Frame.

(** X7. For a molecule that the toolkit parses, [bond_table] never fails,
    whatever symbols occur, and leaves the table of electronegativities
    as it is; what it returns is the frame made of [data], and [data]
    holds one dictionary per bond, in the order of the bonds; a
    dictionary carries the two symbols and the type of its bond and the
    classification of the pair, and its difference is [None] exactly when
    its classification is "unknown", which is exactly when a symbol is
    missing from the table. *)
Theorem bond_table_rows g (smiles : string) (bonds : list BondView) :
  mol_bonds smiles = inr bonds →
  ∃ data,
    bond_table mol_bonds round2 DataFrame smiles g
    = (inr (DataFrame data), g) ∧
    length data = length bonds ∧
    ∀ i bond, bonds !! i = Some bond →
      ∃ row,
        data !! i = Some row ∧
        Atom_1 row = GetBeginAtomSymbol bond ∧
        Atom_2 row = GetEndAtomSymbol bond ∧
        Bond_type row = GetBondTypeStr bond ∧
        classify_bond_polarity (Atom_1 row) (Atom_2 row) g
        = (inr (Classification row), g) ∧
        (Delta_chi row = None ↔ Classification row = "unknown") ∧
        (Classification row = "unknown" ↔
           electronegativity g !! Atom_1 row = None ∨
           electronegativity g !! Atom_2 row = None).
Proof.
  intros Hparse.
  set (delta_of := λ (s : Globals) (bond : BondView),
         match (en_diff (GetBeginAtomSymbol bond)
                  (GetEndAtomSymbol bond) s).1 with
         | inr d => d
         | inl _ => None
         end).
  set (label_of := λ (s : Globals) (bond : BondView),
         match (classify_bond (delta_of s bond) s).1 with
         | inr l => l
         | inl _ => ""
         end).
  set (row_of := λ (s : Globals) (bond : BondView),
         {| Atom_1 := GetBeginAtomSymbol bond;
            Atom_2 := GetEndAtomSymbol bond;
            Bond_type := GetBondTypeStr bond;
            Delta_chi := match delta_of s bond with
                         | None => None
                         | Some d => Some (round2 d)
                         end;
            Classification := label_of s bond |}).
  exists (row_of g <$> bonds).
  split; [|split].
  - unfold bond_table. unfold bind at 1. unfold lift. rewrite Hparse.
    unfold bind at 1.
    rewrite (for_each_append row_of); [done|].
    intros bond acc s. unfold bind, row_of, label_of, delta_of.
    destruct (en_diff_total s (GetBeginAtomSymbol bond)
                (GetEndAtomSymbol bond)) as (d & -> & _). cbn [fst].
    destruct (classify_bond_returns s d) as (l & -> & _). done.
  - by rewrite length_fmap.
  - intros i bond Hi. exists (row_of g bond).
    split; [by rewrite list_lookup_fmap, Hi|].
    do 3 (split; [done|]).
    unfold row_of, label_of, delta_of; cbn.
    unfold classify_bond_polarity, bind.
    destruct (en_diff_total g (GetBeginAtomSymbol bond)
                (GetEndAtomSymbol bond)) as (d & -> & Hd). cbn [fst].
    destruct (classify_bond_returns g d) as (l & -> & _ & Hl). cbn [fst].
    split; [done|]. rewrite Hl, <- Hd. split; [|done].
    by destruct d.
Qed.

End BondTableFacts.

Lemma bond_table_rows_witness :
  ∃ data,
    BondTable.bond_table
      (λ _, inr [ {| BondTable.GetBeginAtomSymbol := "Ca";
                     BondTable.GetEndAtomSymbol := "Zz";
                     BondTable.GetBondTypeStr := "IONIC" |} ])
      (λ x, x) (λ data, data) "[Ca][Zz]" Bonding.initial
    = (inr data, Bonding.initial) ∧
    length data = 1 ∧
    ∃ row, data !! 0 = Some row ∧
           BondTable.Delta_chi row = None ∧
           BondTable.Classification row = "unknown"%string.
Proof.
  destruct (bond_table_rows
              (λ _, inr [ {| BondTable.GetBeginAtomSymbol := "Ca";
                             BondTable.GetEndAtomSymbol := "Zz";
                             BondTable.GetBondTypeStr := "IONIC" |} ])
              (λ x, x) (λ data, data) Bonding.initial "[Ca][Zz]" _ eq_refl)
    as (data & Hrun & Hlen & Hrows).
  exists data. split; [exact Hrun|]. split; [exact Hlen|].
  destruct (Hrows 0 _ eq_refl) as (row & Hrow & H1 & H2 & _ & _ & Hd & Hu).
  exists row. split; [exact Hrow|].
  assert (BondTable.Classification row = "unknown"%string) as Hc.
  { apply Hu. right. rewrite H2. by vm_compute. }
  split; [by apply Hd|exact Hc].
Defined.

(** ** From a molecule to its geometry *)

Section WorkedFacts.

Import VSEPR Worked.
#[local] Open Scope string_scope.
#[local] Open Scope list_scope.
#[local] Open Scope Z_scope.

Implicit Types (g : Globals) (atom : Atom).

Lemma steric_and_lps_sigma g atom (sn lps : Z) :
  (steric_and_lps atom g).1 = inr (sn, lps) →
  sn = GetTotalDegree atom + lps.
Proof.
  unfold steric_and_lps. destruct (VE !! GetSymbol atom); [|done]. run.
  destruct (int _); [done|]. cbn. by intros [= <- <-].
Qed.

(** X8. A geometry is named only for two to six sigma bonds and zero to
    three lone pairs: when the profile of an atom has fewer than two or
    more than six sigma bonds, or a lone-pair count below zero or above
    three, the table answers "unknown". *)
Theorem geometry_needs_two_to_six_bonds g atom (sn lps : Z) :
  (steric_and_lps atom g).1 = inr (sn, lps) →
  GetTotalDegree atom < 2 ∨ 6 < GetTotalDegree atom ∨ lps < 0 ∨ 3 < lps →
  geometry_from_counts sn lps initial = (inr "unknown", initial).
Proof.
  intros Hprofile Hout.
  apply steric_and_lps_sigma in Hprofile.
  unfold geometry_from_counts. run.
  assert (GEOM_MAP !! (sn, lps) = None) as Hnone.
  { apply not_elem_of_list_to_map_1. cbn. intros Hin.
    repeat (apply elem_of_cons in Hin as [[= ? ?]|Hin]; [lia|]).
    by apply elem_of_nil in Hin. }
  unfold initial; cbn [geom_map]. by rewrite Hnone.
Qed.

Lemma geometry_needs_two_to_six_bonds_witness :
  geometry_from_counts 4 3 initial = (inr "unknown", initial).
Proof.
  apply (geometry_needs_two_to_six_bonds initial
           {| GetSymbol := "Cl"; GetFormalCharge := 0; GetTotalDegree := 1;
              GetBonds := [Samples.single] |} 4 3).
  - by vm_compute.
  - left. cbn. lia.
Defined.

(** What the scan of [max] keeps: the start value or a later item that
    beats everything before it, and nothing in the list beats it. *)
Lemma max_scan {A} (key : A → Z) (xs : list A) (x0 r : A) :
  fold_left (λ best a, if key best <? key a then a else best) xs x0 = r →
  (∀ x, x ∈ xs → key x ≤ key r) ∧ key x0 ≤ key r ∧
  (r = x0 ∨
   ∃ pre post, xs = pre ++ r :: post ∧ key x0 < key r ∧
               ∀ x, x ∈ pre → key x < key r).
Proof.
  revert x0. induction xs as [|a xs IH]; intros x0; cbn.
  - intros <-. split; [by intros x ?%elem_of_nil|]. split; [lia|by left].
  - destruct (Z.ltb_spec (key x0) (key a)) as [Hlt|Hge]; intros Hr.
    + destruct (IH a Hr) as (Hall & Hstart & Hwhich).
      split; [|split; [lia|]].
      * intros x [->|Hx]%elem_of_cons; [exact Hstart|by apply Hall].
      * right. destruct Hwhich as [->|(pre & post & -> & Hbeat & Hpre)].
        -- exists [], xs. split; [done|]. split; [done|].
           by intros x ?%elem_of_nil.
        -- exists (a :: pre), post. split; [done|]. split; [lia|].
           intros x [->|Hx]%elem_of_cons; [exact Hbeat|by apply Hpre].
    + destruct (IH x0 Hr) as (Hall & Hstart & Hwhich).
      split; [|split; [exact Hstart|]].
      * intros x [->|Hx]%elem_of_cons; [lia|by apply Hall].
      * destruct Hwhich as [->|(pre & post & -> & Hbeat & Hpre)];
          [by left|].
        right. exists (a :: pre), post. split; [done|]. split; [exact Hbeat|].
        intros x [->|Hx]%elem_of_cons; [lia|by apply Hpre].
Qed.

(** X9. The central atom of the worked examples is an atom of the
    molecule other than hydrogen whose total degree no other such atom
    exceeds, and among equals the first one; a molecule of hydrogens only
    makes the choice raise [ValueError]. *)
Theorem central_atom_choice (atoms : list Atom) :
  match central_atom atoms with
  | inr c =>
      c ∈ atoms ∧ GetSymbol c ≠ "H" ∧
      (∀ a, a ∈ atoms → GetSymbol a ≠ "H" →
            GetTotalDegree a ≤ GetTotalDegree c) ∧
      ∃ pre post,
        filter (λ a, GetSymbol a ≠ "H") atoms = pre ++ c :: post ∧
        ∀ a, a ∈ pre → GetTotalDegree a < GetTotalDegree c
  | inl e =>
      e = ValueError "max() arg is an empty sequence" ∧
      ∀ a, a ∈ atoms → GetSymbol a = "H"
  end.
Proof.
  unfold central_atom, max_key.
  destruct (filter (λ a, GetSymbol a ≠ "H") atoms) as [|x0 xs] eqn:Hheavy.
  - split; [done|]. intros a Ha.
    destruct (decide (GetSymbol a = "H")) as [|Hne]; [done|].
    assert (a ∈ filter (λ a, GetSymbol a ≠ "H") atoms) as Hin
      by (apply list_elem_of_filter; done).
    rewrite Hheavy in Hin. by apply elem_of_nil in Hin.
  - remember (fold_left _ xs x0) as c eqn:Hscan. symmetry in Hscan.
    destruct (max_scan GetTotalDegree xs x0 c Hscan)
      as (Hall & Hstart & Hwhich). clear Hscan.
    assert (c ∈ x0 :: xs) as Hc.
    { destruct Hwhich as [->|(pre & post & -> & _)]; [by left|].
      right. apply elem_of_app. right. by left. }
    rewrite <- Hheavy in Hc. apply list_elem_of_filter in Hc as [Hsym Hc].
    split; [done|]. split; [done|]. split.
    + intros a Ha Hne.
      assert (a ∈ x0 :: xs) as [->|Hin]%elem_of_cons;
        [rewrite <- Hheavy; by apply list_elem_of_filter|done|by apply Hall].
    + destruct Hwhich as [->|(pre & post & -> & Hbeat & Hpre)].
      * exists [], xs. split; [done|]. by intros a ?%elem_of_nil.
      * exists (x0 :: pre), post. split; [done|].
        intros a [->|Ha]%elem_of_cons; [done|by apply Hpre].
Qed.

Lemma central_atom_hydrogens (atoms : list Atom) :
  (∀ a, a ∈ atoms → GetSymbol a = "H") →
  central_atom atoms = inl (ValueError "max() arg is an empty sequence").
Proof.
  intros Hall. unfold central_atom.
  assert (filter (λ a, GetSymbol a ≠ "H") atoms = []) as ->; [|done].
  induction atoms as [|a atoms IH]; [done|].
  rewrite filter_cons_False by (intros Hne; apply Hne, Hall; by left).
  apply IH. intros b Hb. apply Hall. by right.
Qed.

(** X10. The loop body of the worked examples fails with [ValueError] on
    a molecule of hydrogens only and on a central atom whose element has
    no valence count; otherwise, when the profile of the central atom is
    computed, it answers that profile together with the label the table
    holds for it or "unknown". *)
Theorem predict_outcomes g (atoms : list Atom) :
  ((∀ a, a ∈ atoms → GetSymbol a = "H") →
   predict atoms g
   = (inl (ValueError "max() arg is an empty sequence"), g)) ∧
  (∀ c, central_atom atoms = inr c → VE !! GetSymbol c = None →
        predict atoms g
        = (inl (ValueError
                  ("Valence electrons unknown for " +:+ GetSymbol c)), g)) ∧
  (∀ c sn lps,
     central_atom atoms = inr c →
     (steric_and_lps c g).1 = inr (sn, lps) →
     predict atoms g
     = (inr (sn, lps, get (geom_map g) (sn, lps) "unknown"), g) ∧
     sn = GetTotalDegree c + lps).
Proof.
  unfold predict. split; [|split].
  - intros Hall. run. by rewrite (central_atom_hydrogens _ Hall).
  - intros c Hc Hve. run. rewrite Hc.
    unfold steric_and_lps. by rewrite Hve.
  - intros c sn lps Hc Hprofile. run. rewrite Hc.
    pose proof (steric_and_lps_store c g) as Hs.
    pose proof (steric_and_lps_sigma g c sn lps Hprofile) as Hsig.
    destruct (steric_and_lps c g) as [r g']; cbn in *; subst g' r.
    done.
Qed.

Lemma predict_outcomes_witness :
  predict [ {| GetSymbol := "F"; GetFormalCharge := 0; GetTotalDegree := 1;
               GetBonds := [Samples.single] |};
            {| GetSymbol := "B"; GetFormalCharge := 0; GetTotalDegree := 3;
               GetBonds := [Samples.single; Samples.single; Samples.single] |};
            {| GetSymbol := "F"; GetFormalCharge := 0; GetTotalDegree := 1;
               GetBonds := [Samples.single] |};
            {| GetSymbol := "F"; GetFormalCharge := 0; GetTotalDegree := 1;
               GetBonds := [Samples.single] |} ] initial
  = (inl (ValueError "Valence electrons unknown for B"), initial).
Proof.
  refine (proj1 (proj2 (predict_outcomes initial _))
            {| GetSymbol := "B"; GetFormalCharge := 0; GetTotalDegree := 3;
               GetBonds := [Samples.single; Samples.single; Samples.single] |}
            _ _); by vm_compute.
Defined.

End WorkedFacts.

(** ** What the RMSD matrix holds and what it asks of the toolkit *)

Section RmsdMore.

Import Conformers.

(** A counted loop with an invariant that follows the counter and sees
    the store. *)
Lemma for_each_range_invariant {St A} (I : nat → A → St → Prop)
    (lo hi : nat) (body : nat → A → M St A) :
  lo ≤ hi →
  (∀ k acc s, lo ≤ k < hi → I k acc s →
     ∃ acc' s', body k acc s = (inr acc', s') ∧ I (S k) acc' s') →
  ∀ acc s, I lo acc s →
    ∃ acc' s', for_each (range lo hi) body acc s = (inr acc', s') ∧
               I hi acc' s'.
Proof.
  unfold range. intros Hle.
  remember (hi - lo) as len eqn:Hlen. revert lo Hle Hlen.
  induction len as [|len IH]; intros lo Hle Hlen Hbody acc s Hacc.
  - assert (hi = lo) as -> by lia. by exists acc, s.
  - destruct (Hbody lo acc s) as (acc1 & s1 & Hrun & Hacc1); [lia|done|].
    destruct (IH (S lo)) with (acc := acc1) (s := s1)
      as (acc2 & s2 & Hrest & Hacc2); [lia|lia| |done|].
    { intros k a t Hk. apply Hbody. lia. }
    exists acc2, s2. split; [|done]. cbn. unfold bind. by rewrite Hrun.
Qed.

Context {World Mol : Type}.
Variable GetBestRMS : Mol → Mol → Z → Z → World → float * World.
Variable mol : Mol.
Variable conf_ids : list Z.

(** What is known of the answers of the routine, and a property of the
    world that follows the number of calls made so far. *)
Variable answers : Z → Z → float → Prop.
Variable after_calls : nat → World → Prop.

Hypothesis answers_hold :
  ∀ prbId refId w, answers prbId refId (GetBestRMS mol mol prbId refId w).1.

Hypothesis calls_step :
  ∀ i j prbId refId k w,
    i < j → conf_ids !! i = Some prbId → conf_ids !! j = Some refId →
    after_calls k w →
    after_calls (S k) (GetBestRMS mol mol prbId refId w).2.

(** The state of the two loops when the inner one is about to handle
    column [j] of row [i]. *)
Let progress (i j : nat) (mat : Matrix) (w : World) : Prop :=
  square (length conf_ids) mat ∧
  (∀ a b ca cb,
     a < b → b < length conf_ids → a < i ∨ (a = i ∧ b < j) →
     conf_ids !! a = Some ca → conf_ids !! b = Some cb →
     ∃ v, answers ca cb v ∧ item mat a b = Some v ∧ item mat b a = Some v) ∧
  ∃ k, (2 * Z.of_nat k
        = Z.of_nat i * (2 * Z.of_nat (length conf_ids) - Z.of_nat i - 1)
          + 2 * (Z.of_nat j - Z.of_nat i - 1))%Z ∧
       after_calls k w.

Lemma rmsd_progress_inner (i j : nat) (mat : Matrix) (w : World) :
  i < j → j < length conf_ids → progress i j mat w →
  ∃ mat' w',
    (prbId <- lift (index conf_ids i) ;;
     refId <- lift (index conf_ids j) ;;
     v <- call_GetBestRMS GetBestRMS mol mol prbId refId ;;
     mat <- lift (setitem mat i j v) ;;
     lift (setitem mat j i v)) w = (inr mat', w') ∧
    progress i (S j) mat' w'.
Proof using answers_hold calls_step.
  intros Hij Hj (Hsq & Hent & k & Hk & Hw).
  destruct (lookup_lt_is_Some_2 conf_ids i) as [ci Hci]; [lia|].
  destruct (lookup_lt_is_Some_2 conf_ids j Hj) as [cj Hcj].
  run. rewrite Hci, Hcj. unfold call_GetBestRMS.
  pose proof (answers_hold ci cj w) as Hans.
  pose proof (calls_step i j ci cj k w Hij Hci Hcj Hw) as Hw'.
  destruct (GetBestRMS mol mol ci cj w) as [v w']. cbn in Hans, Hw'.
  destruct (setitem_square _ mat i j v Hsq) as (mat1 & E1 & Hsq1 & H1);
    [lia|lia|].
  destruct (setitem_square _ mat1 j i v Hsq1) as (mat2 & E2 & Hsq2 & H2);
    [lia|lia|].
  rewrite E1, E2. exists mat2, w'. split; [done|]. split; [done|]. split.
  - intros a b ca cb Hab Hb Hdone Ha Hb'. rewrite !H2, !H1.
    destruct (decide (a = i ∧ b = j)) as [[-> ->]|Hnew].
    + exists v. assert (ca = ci ∧ cb = cj) as [-> ->] by (split; congruence).
      split; [done|]. repeat case_decide; (done || lia).
    + assert (¬ (a = j ∧ b = i)) by lia.
      assert (¬ (b = j ∧ a = i)) by lia.
      assert (¬ (b = i ∧ a = j)) by lia.
      repeat case_decide; try tauto.
      apply Hent; [done|done|lia|done|done].
  - exists (S k). split; [lia|done].
Qed.

Lemma rmsd_progress_row (i : nat) (mat : Matrix) (w : World) :
  i < length conf_ids → progress i (S i) mat w →
  ∃ mat' w',
    for_each (range (i + 1) (length conf_ids))
      (λ j mat,
         prbId <- lift (index conf_ids i) ;;
         refId <- lift (index conf_ids j) ;;
         v <- call_GetBestRMS GetBestRMS mol mol prbId refId ;;
         mat <- lift (setitem mat i j v) ;;
         lift (setitem mat j i v)) mat w = (inr mat', w') ∧
    progress (S i) (S (S i)) mat' w'.
Proof using answers_hold calls_step.
  intros Hi Hstart.
  destruct (for_each_range_invariant (progress i) (i + 1) (length conf_ids)
              (λ j mat,
                 prbId <- lift (index conf_ids i) ;;
                 refId <- lift (index conf_ids j) ;;
                 v <- call_GetBestRMS GetBestRMS mol mol prbId refId ;;
                 mat <- lift (setitem mat i j v) ;;
                 lift (setitem mat j i v)))
    with (acc := mat) (s := w) as (mat' & w' & Hrun & Hend).
  - lia.
  - intros j acc s Hj Hacc. apply rmsd_progress_inner; [lia|lia|done].
  - by replace (i + 1) with (S i) by lia.
  - exists mat', w'. split; [done|].
    destruct Hend as (Hsq & Hent & k & Hk & Hw). split; [done|]. split.
    + intros a b ca cb Hab Hb Hdone. apply Hent; [done|done|lia].
    + exists k. split; [nia|done].
Qed.

(** X11. For a list of [n] conformer ids the alignment routine is called
    exactly [n (n - 1) / 2] times, once for each pair of positions
    [i < j] with the id at [i] as probe and the id at [j] as reference,
    and what it answered for that pair is the value of both entries
    (i, j) and (j, i) of the matrix. *)
Theorem rmsd_matrix_entries (w : World) :
  after_calls 0 w →
  ∃ mat w' k,
    rmsd_matrix GetBestRMS mol conf_ids w = (inr mat, w') ∧
    2 * k = length conf_ids * (length conf_ids - 1) ∧
    after_calls k w' ∧
    ∀ i j prbId refId,
      i < j → conf_ids !! i = Some prbId → conf_ids !! j = Some refId →
      ∃ v, answers prbId refId v ∧
           item mat i j = Some v ∧ item mat j i = Some v.
Proof using answers_hold calls_step.
  intros Hw. unfold rmsd_matrix.
  destruct (for_each_range_invariant (λ i, progress i (S i))
              0 (length conf_ids)
              (λ i mat,
                 for_each (range (i + 1) (length conf_ids))
                   (λ j mat,
                      prbId <- lift (index conf_ids i) ;;
                      refId <- lift (index conf_ids j) ;;
                      v <- call_GetBestRMS GetBestRMS mol mol prbId refId ;;
                      mat <- lift (setitem mat i j v) ;;
                      lift (setitem mat j i v)) mat))
    with (acc := zeros (length conf_ids) (length conf_ids)) (s := w)
    as (mat & w' & Hrun & Hsq & Hent & k & Hk & Hw').
  - lia.
  - intros i acc s Hi Hacc. apply rmsd_progress_row; [lia|done].
  - split; [apply square_zeros|]. split.
    + intros a b ca cb Hab Hb Hdone. lia.
    + exists 0. split; [lia|done].
  - exists mat, w', k. split; [done|]. split.
    { revert Hk. generalize (length conf_ids). intros [|m] Hk; [lia|].
      replace (S m - 1) with m by lia. apply Nat2Z.inj.
      rewrite !Nat2Z.inj_mul, !Nat2Z.inj_succ in *.
      change (Z.of_nat 0) with 0%Z. change (Z.succ (Z.succ 0)) with 2%Z.
      rewrite Hk. ring. }
    split; [done|].
    intros i j ci cj Hij Hci Hcj.
    pose proof (lookup_lt_Some _ _ _ Hci). pose proof (lookup_lt_Some _ _ _ Hcj).
    apply (Hent i j ci cj); [done|done|lia|done|done].
Qed.

End RmsdMore.

Lemma rmsd_matrix_entries_witness :
  ∃ mat w' k,
    Conformers.rmsd_matrix Samples.counting_rms tt [7; 8; 9]%Z 0
    = (inr mat, w') ∧
    2 * k = 3 * (3 - 1) ∧ w' = k ∧
    ∃ v, Conformers.item mat 0 2 = Some v ∧ Conformers.item mat 2 0 = Some v.
Proof.
  destruct (rmsd_matrix_entries Samples.counting_rms tt [7; 8; 9]%Z
              (λ _ _ _, True) (λ k w, w = k)) with (w := 0)
    as (mat & w' & k & Hrun & Hk & Hw & Hent).
  - done.
  - intros i j a b k w _ _ _ ->. done.
  - done.
  - exists mat, w', k. split; [exact Hrun|]. split; [exact Hk|].
    split; [exact Hw|].
    destruct (Hent 0 2 7%Z 9%Z) as (v & _ & H1 & H2); [lia|done|done|].
    by exists v.
Defined.

(** ** Viewing and scoring conformers *)

Section ViewFacts.

Import ConformerViews.
#[local] Open Scope string_scope.
#[local] Open Scope list_scope.

(** A loop over a list with an invariant that follows the position and
    sees the store. *)
Lemma for_each_invariant_at {St X A} (I : nat → A → St → Prop)
    (xs : list X) (body : X → A → M St A) :
  (∀ k x acc s, xs !! k = Some x → I k acc s →
     ∃ acc' s', body x acc s = (inr acc', s') ∧ I (S k) acc' s') →
  ∀ acc s, I 0 acc s →
    ∃ acc' s', for_each xs body acc s = (inr acc', s') ∧
               I (length xs) acc' s'.
Proof.
  revert I. induction xs as [|x xs IH]; intros I Hbody acc s Hacc.
  - by exists acc, s.
  - destruct (Hbody 0 x acc s) as (acc1 & s1 & Hrun & Hacc1); [done|done|].
    destruct (IH (λ k, I (S k))) with (acc := acc1) (s := s1)
      as (acc2 & s2 & Hrest & Hacc2); [|done|].
    { intros k y a t Hk. by apply (Hbody (S k)). }
    exists acc2, s2. split; [|done]. cbn. unfold bind. by rewrite Hrun.
Qed.

Lemma bind_returns {St A B} (m : M St A) (k : A → M St B) (a : A)
    (s s' : St) :
  m s = (inr a, s') → bind m k s = k a s'.
Proof. intros Hm. unfold bind. by rewrite Hm. Qed.

Lemma length_slice_to {A} (xs : list A) (stop : Z) :
  (0 ≤ stop)%Z →
  length (slice_to xs stop) = Z.to_nat stop `min` length xs.
Proof.
  intros Hstop. unfold slice_to.
  destruct (Z.leb_spec 0 stop); [|lia]. by rewrite length_take.
Qed.

Lemma colours_in_range (i : nat) :
  ∃ c, colours !! (i `mod` length colours) = Some c.
Proof.
  apply lookup_lt_is_Some_2. apply Nat.mod_upper_bound. done.
Qed.

Context {World Mol : Type}.
Variable MolToMolBlock : Mol → Z → M World string.

Variable block_of : Z → string → Prop.

Lemma lookup_slice_to {A} (xs : list A) (stop : Z) (i : nat) (x : A) :
  slice_to xs stop !! i = Some x → xs !! i = Some x.
Proof.
  unfold slice_to. destruct (0 <=? stop)%Z; intros H;
    by apply lookup_take_Some in H as [? _].
Qed.

(** X12. When the toolkit writes a block for every conformer,
    [view_overlay] never fails, however many conformers there are and
    whatever [max_show] is: the colour index always falls inside the five
    colours.  It shows the conformers of [conf_ids[:max_show]], at most
    [max_show] of them when that is not negative; for position [i] the
    viewer receives one [addModel] with a block that the toolkit wrote
    for the id at position [i] of [conf_ids], then one [setStyle] of
    model [i] with colour number [i mod 5], and at the end [zoomTo] and
    [show]. *)
Theorem view_overlay_calls (mol : Mol) (conf_ids : list Z) (max_show : Z)
    (w : World) :
  (∀ cid w, ∃ block w',
     MolToMolBlock mol cid w = (inr block, w') ∧ block_of cid block) →
  ∃ calls w',
    view_overlay MolToMolBlock mol conf_ids max_show w = (inr calls, w') ∧
    length calls = 2 * length (slice_to conf_ids max_show) + 2 ∧
    ((0 ≤ max_show)%Z →
     length (slice_to conf_ids max_show)
     = Z.to_nat max_show `min` length conf_ids) ∧
    (∀ i, i < length (slice_to conf_ids max_show) →
       ∃ cid block colour,
         conf_ids !! i = Some cid ∧
         slice_to conf_ids max_show !! i = Some cid ∧
         block_of cid block ∧
         calls !! (2 * i) = Some (addModel block "mol") ∧
         calls !! (2 * i + 1) = Some (setStyle i colour) ∧
         colours !! (i `mod` 5) = Some colour) ∧
    calls !! (2 * length (slice_to conf_ids max_show)) = Some zoomTo ∧
    calls !! (2 * length (slice_to conf_ids max_show) + 1) = Some show.
Proof.
  intros Hblock. unfold view_overlay.
  set (shown := slice_to conf_ids max_show).
  destruct (for_each_invariant_at
              (λ k (view : list call) (_ : World),
                 length view = 2 * k ∧
                 ∀ i, i < k →
                   ∃ cid block colour,
                     shown !! i = Some cid ∧
                     block_of cid block ∧
                     view !! (2 * i) = Some (addModel block "mol") ∧
                     view !! (2 * i + 1) = Some (setStyle i colour) ∧
                     colours !! (i `mod` 5) = Some colour)
              (enumerate shown)
              (λ '(i, cid) view,
                 block <- MolToMolBlock mol cid ;;
                 let view := view ++ [addModel block "mol"] in
                 colour <- lift (index colours (i `mod` length colours)) ;;
                 ret (view ++ [setStyle i colour])))
    with (acc := @nil call) (s := w) as (view & w' & Hrun & Hlen & Hcalls).
  - intros k [i cid] view s Hk [Hlen Hcalls].
    unfold enumerate in Hk. rewrite list_lookup_imap in Hk.
    destruct (shown !! k) as [cid'|] eqn:Hshown; [|done]. cbn in Hk.
    injection Hk as <- <-.
    destruct (Hblock cid' s) as (block & s' & Hb & Hof).
    destruct (colours_in_range k) as [colour Hcol].
    exists ((view ++ [addModel block "mol"]) ++ [setStyle k colour]), s'.
    split.
    { run. by rewrite Hb, Hcol. }
    split; [rewrite !length_app; cbn; lia|].
    intros i Hi. destruct (decide (i = k)) as [->|Hne].
    + exists cid', block, colour.
      split; [done|]. split; [done|]. split; [|split; [|done]].
      * rewrite lookup_app_l by (rewrite length_app; cbn; lia).
        rewrite lookup_app_r by lia.
        assert (2 * k - length view = 0) as -> by lia. done.
      * rewrite lookup_app_r by (rewrite length_app; cbn; lia).
        rewrite length_app. cbn [length].
        assert (2 * k + 1 - (length view + 1) = 0) as -> by lia. done.
    + destruct (Hcalls i) as (c0 & b & c & H0 & Hb0 & H1 & H2 & H3); [lia|].
      exists c0, b, c.
      split; [done|]. split; [done|]. split; [|split; [|done]].
      * rewrite lookup_app_l by (rewrite length_app; cbn; lia).
        by rewrite lookup_app_l by lia.
      * rewrite lookup_app_l by (rewrite length_app; cbn; lia).
        by rewrite lookup_app_l by lia.
  - split; [done|]. intros i Hi. lia.
  - assert (length (enumerate shown) = length shown) as Hn
      by (unfold enumerate; by rewrite length_imap).
    rewrite Hn in Hlen, Hcalls.
    exists ((view ++ [zoomTo]) ++ [show]), w'. split.
    { by rewrite (bind_returns _ _ _ _ _ Hrun). }
    split; [rewrite !length_app; cbn; lia|].
    split; [apply length_slice_to|]. split; [|split].
    + intros i Hi.
      destruct (Hcalls i Hi) as (c0 & b & c & H0 & Hb0 & H1 & H2 & H3).
      exists c0, b, c.
      split; [by apply (lookup_slice_to _ max_show)|].
      split; [done|]. split; [done|]. split; [|split; [|done]].
      * rewrite lookup_app_l by (rewrite length_app; cbn; lia).
        by rewrite lookup_app_l by lia.
      * rewrite lookup_app_l by (rewrite length_app; cbn; lia).
        by rewrite lookup_app_l by lia.
    + rewrite lookup_app_l by (rewrite length_app; cbn; lia).
      rewrite lookup_app_r by lia.
      assert (2 * length shown - length view = 0) as -> by lia. done.
    + rewrite lookup_app_r by (rewrite length_app; cbn; lia).
      rewrite length_app. cbn [length].
      assert (2 * length shown + 1 - (length view + 1) = 0) as -> by lia.
      done.
Qed.

Context {FF : Type}.
Variable UFFGetMoleculeForceField : Mol → Z → M World FF.
Variable CalcEnergy : FF → M World float.
Variable energy_of : Z → float → Prop.

(** X13. When the toolkit yields an energy for every conformer,
    [conformer_energies] returns one energy per conformer id, in the
    order of the ids, each of them an energy the toolkit gave for that
    id; on an empty list it returns the empty array. *)
Theorem conformer_energies_aligned (mol : Mol) (conf_ids : list Z)
    (w : World) :
  (∀ cid w, ∃ e w',
     (ff <- UFFGetMoleculeForceField mol cid ;; CalcEnergy ff) w
     = (inr e, w') ∧ energy_of cid e) →
  ∃ energies w',
    conformer_energies UFFGetMoleculeForceField CalcEnergy mol conf_ids w
    = (inr energies, w') ∧
    Forall2 energy_of conf_ids energies.
Proof.
  intros Hcall. unfold conformer_energies.
  destruct (for_each_invariant_at
              (λ k (es : list float) (_ : World),
                 Forall2 energy_of (take k conf_ids) es)
              conf_ids
              (λ cid energies,
                 ff <- UFFGetMoleculeForceField mol cid ;;
                 e <- CalcEnergy ff ;;
                 ret (energies ++ [e])))
    with (acc := @nil float) (s := w) as (es & w' & Hrun & Hes).
  - intros k cid es s Hk Hes.
    destruct (Hcall cid s) as (e & s' & Hrun & He).
    exists (es ++ [e]), s'. split.
    + revert Hrun. unfold bind.
      destruct (UFFGetMoleculeForceField mol cid s) as [[x|ff] s1]; [done|].
      by intros ->.
    + rewrite (take_S_r _ _ _ Hk). apply Forall2_app; [done|].
      by constructor.
  - constructor.
  - exists es, w'. split; [done|]. by rewrite firstn_all in Hes.
Qed.

End ViewFacts.

Lemma view_overlay_calls_witness :
  ∃ calls w',
    ConformerViews.view_overlay
      (λ (_ : unit) (cid : Z),
         ret (if decide (cid = 15%Z) then "fifteen" else "other")%string)
      tt [10; 11; 12; 13; 14; 15; 16]%Z 6 tt = (inr calls, w') ∧
    length calls = 14 ∧
    calls !! 10 = Some (ConformerViews.addModel "fifteen" "mol") ∧
    calls !! 11 = Some (ConformerViews.setStyle 5 "0xff0000").
Proof.
  destruct (view_overlay_calls
              (λ (_ : unit) (cid : Z),
                 ret (if decide (cid = 15%Z) then "fifteen" else "other")%string)
              (λ cid block,
                 block = (if decide (cid = 15%Z) then "fifteen" else "other")%string)
              tt [10; 11; 12; 13; 14; 15; 16]%Z 6 tt)
    as (calls & w' & Hrun & Hlen & _ & Hcalls & _).
  - intros cid w. by eexists _, w.
  - exists calls, w'. split; [exact Hrun|]. split; [exact Hlen|].
    destruct (Hcalls 5) as (cid & b & c & H0 & _ & Hb & H1 & H2 & H3);
      [vm_compute; lia|].
    cbn in H0, H3. injection H0 as <-. injection H3 as <-. subst b.
    split; [exact H1|exact H2].
Defined.

Lemma conformer_energies_aligned_witness :
  ∃ energies w',
    ConformerViews.conformer_energies
      (λ (_ : unit) (cid : Z), ret cid)
      (λ cid, ret (PrimFloat.of_uint63 (Uint63.of_Z cid)))
      tt [3; 1; 2]%Z tt = (inr energies, w') ∧
    Forall2 (λ cid e, e = PrimFloat.of_uint63 (Uint63.of_Z cid))
      [3; 1; 2]%Z energies.
Proof.
  apply (conformer_energies_aligned
           (λ (_ : unit) (cid : Z), ret cid)
           (λ cid, ret (PrimFloat.of_uint63 (Uint63.of_Z cid)))
           (λ cid e, e = PrimFloat.of_uint63 (Uint63.of_Z cid))
           tt [3; 1; 2]%Z tt).
  intros cid w. by exists (PrimFloat.of_uint63 (Uint63.of_Z cid)), w.
Defined.

(** ** Reading molecules from a table *)

Section ChemDataFacts.

Import ChemData.

Context {World Mol : Type}.
Variable MolFromSmiles : string → M World (option Mol).

(** X14. [smiles_to_mol] never raises: what the parser returns is passed
    on, an exception of the parser of any kind becomes [None], and the
    world is left as the parser left it. *)
Theorem smiles_to_mol_never_raises (s : string) (w : World) :
  ∃ r,
    smiles_to_mol MolFromSmiles s w = (inr r, (MolFromSmiles s w).2) ∧
    match (MolFromSmiles s w).1 with
    | inr parsed => r = parsed
    | inl _ => r = None
    end.
Proof.
  unfold smiles_to_mol, try_except.
  destruct (MolFromSmiles s w) as [[e|parsed] w']; cbn; by eexists.
Qed.

End ChemDataFacts.

(** ** Printing a hybridisation *)

Section HybridStrFacts.

Import HybridStr.
#[local] Open Scope string_scope.

Lemma dot_eqb (c : Ascii.ascii) (s : string) :
  String.eqb (String c "") "." = true → String c s = "." +:+ s.
Proof. intros Hc%String.eqb_eq. by injection Hc as ->. Qed.

Lemma split_dot_cons (c : Ascii.ascii) (s : string) :
  split_dot (String c s)
  = if String.eqb (String c "") "."
    then "" :: split_dot s
    else match split_dot s with
         | p :: ps => String c p :: ps
         | [] => [String c ""]
         end.
Proof. done. Qed.

Lemma has_dot_cons (c : Ascii.ascii) (s : string) :
  has_dot (String c s) = String.eqb (String c "") "." || has_dot s.
Proof. done. Qed.

(** The pieces of a split: the last one has no dot and ends the string,
    and when there are earlier pieces a dot stands right before it. *)
Lemma split_dot_last (s : string) :
  ∃ init name,
    split_dot s = (init ++ [name])%list ∧ has_dot name = false ∧
    ((init = [] ∧ s = name) ∨
     (init ≠ [] ∧ ∃ q, s = q +:+ "." +:+ name)).
Proof.
  induction s as [|c s (init & name & Hsplit & Hname & Hshape)].
  - exists [], "". split; [done|]. split; [done|]. by left.
  - rewrite split_dot_cons.
    destruct (String.eqb (String c "") ".") eqn:Hc.
    + exists ("" :: init), name. rewrite Hsplit. split; [done|].
      split; [done|]. right. split; [done|].
      rewrite (dot_eqb _ _ Hc).
      destruct Hshape as [[-> ->]|[_ [q ->]]].
      * by exists "".
      * by exists ("." +:+ q).
    + rewrite Hsplit. destruct Hshape as [[-> ->]|[Hinit [q ->]]].
      * exists [], (String c name). split; [done|].
        rewrite has_dot_cons, Hc, Hname. split; [done|]. by left.
      * destruct init as [|p ps]; [done|].
        exists (String c p :: ps), name. split; [done|]. split; [done|].
        right. split; [done|]. by exists (String c q).
Qed.

Variable lower : string → string.

(** X15. [hybrid_str] never fails on an index, even for the empty string:
    it lower-cases the part of the printed hybridisation that follows the
    last dot, or all of it when there is no dot. *)
Theorem hybrid_str_after_last_dot (printed : string) :
  ∃ name,
    hybrid_str lower printed = inr (lower name) ∧
    has_dot name = false ∧
    (printed = name ∨ ∃ qualifier, printed = qualifier +:+ "." +:+ name).
Proof.
  destruct (split_dot_last printed) as (init & name & Hsplit & Hname & Hshape).
  exists name. unfold hybrid_str, last_item.
  rewrite Hsplit, last_snoc. split; [done|]. split; [done|].
  destruct Hshape as [[_ ->]|[_ [q ->]]]; [by left|right; by exists q].
Qed.

End HybridStrFacts.

(** The pieces of some printed forms. *)
Example split_dot_samples :
  HybridStr.split_dot "rdkit.Chem.rdchem.HybridizationType.SP3"
  = ["rdkit"; "Chem"; "rdchem"; "HybridizationType"; "SP3"]%string ∧
  HybridStr.split_dot "SP3" = ["SP3"%string] ∧
  HybridStr.split_dot "a..b." = ["a"; ""; "b"; ""]%string ∧
  HybridStr.split_dot "" = [""%string].
Proof. by vm_compute. Qed.

(** ** The sign of a difference *)

Section DifferenceSign.

Import Bonding.
#[local] Open Scope string_scope.

Lemma ltb_abs_zero (x : float) : PrimFloat.ltb (PrimFloat.abs x) 0 = false.
Proof.
  rewrite ltb_spec, abs_spec.
  change (Prim2SF 0) with (S754_zero false).
  by destruct (Prim2SF x) as [s|s| |s m e].
Qed.

(** X16. A difference that [en_diff] returns is never below zero: it is
    the absolute value of the difference of the two table entries, in
    this order, and both symbols were found. *)
Theorem en_diff_not_negative (g : Globals) (sym1 sym2 : string) (d : float) :
  (en_diff sym1 sym2 g).1 = inr (Some d) →
  PrimFloat.ltb d 0 = false ∧
  ∃ x1 x2, electronegativity g !! sym1 = Some x1 ∧
           electronegativity g !! sym2 = Some x2 ∧
           d = PrimFloat.abs (x1 - x2).
Proof.
  destruct (electronegativity g !! sym1) as [x1|] eqn:H1;
    destruct (electronegativity g !! sym2) as [x2|] eqn:H2.
  - rewrite (en_diff_found _ _ _ _ _ H1 H2). cbn. intros [= <-].
    split; [apply ltb_abs_zero|]. by exists x1, x2.
  - rewrite en_diff_missing by auto. done.
  - rewrite en_diff_missing by auto. done.
  - rewrite en_diff_missing by auto. done.
Qed.

Lemma en_diff_not_negative_witness :
  PrimFloat.ltb 2.23 0 = false ∧
  ∃ x1 x2, electronegativity initial !! "Na" = Some x1 ∧
           electronegativity initial !! "Cl" = Some x2 ∧
           2.23%float = PrimFloat.abs (x1 - x2).
Proof.
  apply (en_diff_not_negative initial "Na" "Cl" 2.23%float). by vm_compute.
Defined.

End DifferenceSign.
